(** * Verification of the postMessage RPC engine (src/rpc.js)

    The development embeds the three parts of [RPC] as Rocq functions:
    the connector [RPC.Client] (handshake with timers), the proxy class built
    by [RPC._Client] (pending table, stubs, reply handler) and the dispatcher
    class built by [RPC._Server] (whitelist, access control, replies).

    JavaScript values are a first order datatype; the host (engine and
    browser) is a record of the few things the source leaves to it.  Every
    handler is a function from a state and a message event to a new state and
    the list of effects it had. *)

From Stdlib Require Import ZArith Ascii String Decimal DecimalString Permutation.
From stdpp Require Import base option list gmap strings.

Open Scope string_scope.
Open Scope Z_scope.
Open Scope list_scope.

(** ** JavaScript values *)

Module JS.

(** A window is known by a handle; [===] on windows compares handles. *)
Definition window := nat.

(** The values that travel through this program.  Numbers are the integer
    valued ones (ids are integers); functions and symbols are not data here.
    [VErr name message stack code] is an Error object with the three fields
    the source reads and writes. *)
#[local] Unset Elimination Schemes.
Inductive value : Type :=
| VUndef
| VNull
| VBool (b : bool)
| VNum (n : Z)
| VStr (s : string)
| VArr (items : list value)
| VObj (fields : list (string * value))
| VErr (name message : string) (stack code : value)
| VWin (w : window).
#[local] Set Elimination Schemes.

(** Induction with the hypotheses for the items of an array and the fields
    of an object. *)
Section value_induction.
Variable P : value -> Prop.
Hypothesis Pundef : P VUndef.
Hypothesis Pnull : P VNull.
Hypothesis Pbool : forall b, P (VBool b).
Hypothesis Pnum : forall n, P (VNum n).
Hypothesis Pstr : forall s, P (VStr s).
Hypothesis Parr : forall items, Forall P items -> P (VArr items).
Hypothesis Pobj : forall fs, Forall (fun kv => P (snd kv)) fs -> P (VObj fs).
Hypothesis Perr : forall n m s c, P s -> P c -> P (VErr n m s c).
Hypothesis Pwin : forall w, P (VWin w).

Fixpoint value_ind (v : value) : P v :=
  match v with
  | VUndef => Pundef
  | VNull => Pnull
  | VBool b => Pbool b
  | VNum n => Pnum n
  | VStr s => Pstr s
  | VArr items =>
      Parr items ((fix go (l : list value) : Forall P l :=
                     match l with
                     | [] => List.Forall_nil P
                     | x :: r => @List.Forall_cons _ P x r (value_ind x) (go r)
                     end) items)
  | VObj fs =>
      Pobj fs ((fix go (l : list (string * value)) : Forall (fun kv => P (snd kv)) l :=
                  match l with
                  | [] => List.Forall_nil _
                  | x :: r => @List.Forall_cons _ _ x r (value_ind (snd x)) (go r)
                  end) fs)
  | VErr n m s c => Perr n m s c (value_ind s) (value_ind c)
  | VWin w => Pwin w
  end.
End value_induction.

(** [!v] is [negb (truthy v)]. *)
Definition truthy (v : value) : bool :=
  match v with
  | VUndef | VNull => false
  | VBool b => b
  | VNum n => negb (n =? 0)
  | VStr s => negb (String.eqb s "")
  | _ => true
  end.

(** [v === 'lit'] for a string literal or a string variable. *)
Definition is_str (v : value) (lit : string) : bool :=
  match v with
  | VStr s => String.eqb s lit
  | _ => false
  end.

Fixpoint field (k : string) (fs : list (string * value)) : value :=
  match fs with
  | [] => VUndef
  | (k', v) :: rest => if String.eqb k k' then v else field k rest
  end.

(** [v.k] for the property names the source reads ([status], [id],
    [result], [interfaceName], [command], [args], [message], [stack],
    [code]); [None] is the TypeError of reading a property of [undefined] or
    [null].  Primitives, arrays and windows have none of these names. *)
Definition get (v : value) (k : string) : option value :=
  match v with
  | VUndef | VNull => None
  | VObj fs => Some (field k fs)
  | VErr n m s c =>
      Some (if String.eqb k "message" then VStr m
            else if String.eqb k "stack" then s
            else if String.eqb k "code" then c
            else if String.eqb k "name" then VStr n
            else VUndef)
  | _ => Some VUndef
  end.

Definition string_of_Z (n : Z) : string := NilZero.string_of_int (Z.to_int n).

Fixpoint join (sep : string) (parts : list string) : string :=
  match parts with
  | [] => ""
  | [p] => p
  | p :: rest => (p ++ sep ++ join sep rest)%string
  end.

Fixpoint sequence {A} (l : list (option A)) : option (list A) :=
  match l with
  | [] => Some []
  | Some a :: rest => match sequence rest with Some r => Some (a :: r) | None => None end
  | None :: _ => None
  end.

Definition has_key (k : string) (fs : list (string * value)) : bool :=
  existsb (fun kv => String.eqb k (fst kv)) fs.

(** ToString.  An array joins its items with commas, [undefined] and [null]
    items giving the empty string; a plain object is ["[object Object]"]
    unless it carries a [toString] data property, which makes the conversion
    throw ([None]); an Error object prints as [Error.prototype.toString]
    does. *)
Fixpoint to_string (v : value) : option string :=
  match v with
  | VUndef => Some "undefined"
  | VNull => Some "null"
  | VBool true => Some "true"
  | VBool false => Some "false"
  | VNum n => Some (string_of_Z n)
  | VStr s => Some s
  | VArr items =>
      match sequence (map (fun i => match i with
                                    | VUndef | VNull => Some ""
                                    | _ => to_string i
                                    end) items) with
      | Some parts => Some (join "," parts)
      | None => None
      end
  | VObj fs => if has_key "toString" fs then None else Some "[object Object]"
  | VErr n m _ _ =>
      Some (if String.eqb n "" then m
            else if String.eqb m "" then n
            else (n ++ ": " ++ m)%string)
  | VWin _ => Some "[object Window]"
  end.

(** A value without windows and Error objects: the structured clone of such
    a value is the value itself on every host. *)
Fixpoint plain (v : value) : bool :=
  match v with
  | VArr items => forallb plain items
  | VObj fs => forallb (fun kv => plain (snd kv)) fs
  | VErr _ _ _ _ | VWin _ => false
  | _ => true
  end.

(** What the source leaves to the engine and the browser. *)
Record Host := {
  (** the [stack] a fresh [new Error(message)] gets *)
  new_stack : string -> string;
  (** the TypeError the engine throws *)
  type_error : value;
  (** the DataCloneError [postMessage] throws *)
  data_clone_error : value;
  (** the structured clone of an Error object, [None] where the host
      refuses to clone it *)
  clone_error : string -> string -> value -> value -> option value;
  (** CreateListFromArrayLike on an object that is not an array *)
  array_like : value -> list value
}.

(** The structured clone [postMessage] takes of its message; [None] is a
    DataCloneError. *)
Fixpoint structured_clone (h : Host) (v : value) : option value :=
  match v with
  | VArr items =>
      match sequence (map (structured_clone h) items) with
      | Some items' => Some (VArr items')
      | None => None
      end
  | VObj fs =>
      match sequence (map (fun kv => match structured_clone h (snd kv) with
                                     | Some v' => Some (fst kv, v')
                                     | None => None
                                     end) fs) with
      | Some fs' => Some (VObj fs')
      | None => None
      end
  | VErr n m s c => clone_error h n m s c
  | VWin _ => None
  | _ => Some v
  end.

(** [new Error(message)]: the message is [""] for [undefined] and
    ToString of the argument otherwise. *)
Definition new_error_message (message : value) : option string :=
  match message with
  | VUndef => Some ""
  | _ => to_string message
  end.

(** [v.k] where [v] is known not to be [undefined] or [null]. *)
Definition prop (v : value) (k : string) : value :=
  match get v k with
  | Some x => x
  | None => VUndef
  end.

Definition nullish (v : value) : bool :=
  match v with
  | VUndef | VNull => true
  | _ => false
  end.

(** Iteration, as [[...v]] and [for (const x of v)] do it: arrays and
    strings are iterable, [None] is the TypeError for the rest. *)
Definition iterate (v : value) : option (list value) :=
  match v with
  | VArr items => Some items
  | VStr s => Some (map (fun c => VStr (String c EmptyString)) (list_ascii_of_string s))
  | _ => None
  end.

End JS.

Import JS.

(** ** The message channel *)

Module Channel.

(** A MessageEvent, with the three properties the handlers read. *)
Record event := { source : window; origin : string; data : value }.

(** A message accepted by [postMessage]: the target window, the clone of
    the message and the target origin pattern. *)
Record post := { to : window; message : value; target_origin : string }.

(** [target.postMessage(msg, targetOrigin)]: the clone is taken at the
    call, which throws the DataCloneError when there is none.  The target
    origins the program passes (the wildcard, the configured origin and the
    origin of an event) are taken to be patterns the browser accepts. *)
Definition postMessage (h : Host) (target : window) (msg : value)
    (pattern : string) : value + post :=
  match structured_clone h msg with
  | Some d => inr {| to := target; message := d; target_origin := pattern |}
  | None => inl (data_clone_error h)
  end.

(** Delivery of an accepted message sent from the window [sender]: the
    target receives an event when the pattern is the wildcard or the
    target's origin. *)
Definition deliver (origin_of : window -> string) (sender : window) (p : post)
    : option event :=
  if String.eqb (target_origin p) "*"
     || String.eqb (target_origin p) (origin_of (to p))
  then Some {| source := sender; origin := origin_of sender; data := message p |}
  else None.

(** The data of an event came through a structured clone, so it can be
    cloned again. *)
Definition cloneable (h : Host) (v : value) : bool :=
  match structured_clone h v with Some _ => true | None => false end.

End Channel.

Import Channel.

(** ** The dispatcher: [RPC._Server] *)

Module Server.

(** What a service method does when it is applied: it returns a value that
    is not a promise, throws, or returns a promise that is fulfilled,
    rejected or never settled. *)
Inductive settle := Fulfil (v : value) | RejectWith (e : value) | Never.
Inductive outcome := Return (v : value) | Throw (e : value) | Async (s : settle).

(** An effect of a handler: a message accepted by [postMessage], or an
    exception nobody caught.  [deferred] tells the effects that happen when
    the promise returned by the service method settles from those of the
    handler's own turn. *)
Inductive effect :=
| Posted (deferred : bool) (p : post)
| Escaped (deferred : bool) (e : value).

Section Dispatcher.

Variable h : Host.
(** The state of the wrapped service instance. *)
Variable S : Type.

Definition method := S -> list value -> S * outcome.

(** The wrapped class: its name, the members [this[command]] finds on an
    instance (other than [getRpcInterface], which the dispatcher installs
    itself), the names [Reflection.userFunctions(clazz.prototype)] lists,
    and the optional [onConnected] hook, which may throw. *)
Record clazz := {
  class_name : string;
  member : string -> option method;
  userFunctions : list string;
  onConnected : option (S -> S * option value)
}.

(** The class [_Server] returns. *)
Record Server := {
  base : clazz;
  useAccessControl : bool;
  _rpcInterface : list string
}.

(** [Array.prototype.push] *)
Definition push {A} (l : list A) (x : A) : list A := l ++ [x].

(** Lines 208 to 220: the whitelist is the given array, or the reflected
    names pushed one by one on an empty array; [getRpcInterface] is pushed
    on it in either case. *)
Definition _Server (c : clazz) (useAccessControl : bool)
    (rpcInterface : option (list string)) : Server :=
  let whitelist :=
    match rpcInterface with
    | Some given => given
    | None => foldl push [] (userFunctions c)
    end in
  {| base := c;
     useAccessControl := useAccessControl;
     _rpcInterface := push whitelist "getRpcInterface" |}.

(** The whitelist as the specification words it (section 4.3): the given
    list verbatim, or else the reflected names, and the handshake name
    appended if it is not already present. *)
Definition whitelist_as_specified (c : clazz) (rpcInterface : option (list string))
    : list string :=
  let names :=
    match rpcInterface with
    | Some given => given
    | None => userFunctions c
    end in
  if existsb (String.eqb "getRpcInterface") names then names
  else names ++ ["getRpcInterface"].

(** A dispatcher instance: the service state, and the trace of the methods
    applied so far with their arguments. *)
Record instance := { service : S; calls : list (string * list value) }.

(** [this._name] *)
Definition _name (srv : Server) : string := class_name (base srv).

(** Lines 223 to 226. *)
Definition getRpcInterface (srv : Server) : method :=
  fun s _ =>
    let whitelist := VArr (map VStr (_rpcInterface srv)) in
    match onConnected (base srv) with
    | Some hook =>
        match hook s with
        | (s', Some e) => (s', Throw e)
        | (s', None) => (s', Return whitelist)
        end
    | None => (s, Return whitelist)
    end.

(** The message names this dispatcher's interface (line 166). *)
Definition addressed (srv : Server) (ev : event) : bool :=
  match get (data ev) "interfaceName" with
  | Some name => is_str name (_name srv)
  | None => false
  end.

(** [this[command]] *)
Definition lookup_member (srv : Server) (key : string) : option method :=
  if String.eqb key "getRpcInterface" then Some (getRpcInterface srv)
  else member (base srv) key.

(** [this._rpcInterface.includes(command)]: a command that is not a string
    is the same as no entry. *)
Definition includes (whitelist : list string) (command : value) : bool :=
  existsb (is_str command) whitelist.

(** The payload of an error reply,
    [e.message ? { message: e.message, stack: e.stack, code: e.code } : { message: e }];
    [None] is the TypeError of reading [e.message] on [undefined] or [null]. *)
Definition error_payload (e : value) : option value :=
  match get e "message", get e "stack", get e "code" with
  | Some m, Some s, Some c =>
      if truthy m
      then Some (VObj [("message", m); ("stack", s); ("code", c)])
      else Some (VObj [("message", e)])
  | _, _, _ => None
  end.

(** Lines 160 to 162; [inl] is what the call throws. *)
Definition _replyTo (srv : Server) (ev : event) (status : string)
    (result : value) : value + post :=
  match get (data ev) "id" with
  | None => inl (type_error h)
  | Some id =>
      postMessage h (source ev)
        (VObj [("status", VStr status); ("result", result);
               ("interfaceName", VStr (_name srv)); ("id", id)])
        (origin ev)
  end.

(** The handler of [catch (e)] and of [.catch(e => ...)]: what it throws
    escapes. *)
Definition reply_error (srv : Server) (deferred : bool) (ev : event)
    (e : value) : list effect :=
  match error_payload e with
  | None => [Escaped deferred (type_error h)]
  | Some payload =>
      match _replyTo srv ev "error" payload with
      | inr p => [Posted deferred p]
      | inl e' => [Escaped deferred e']
      end
  end.

(** [this._replyTo(message, 'OK', result)] inside the [try] and inside
    [.then(...)]: what it throws goes to the handler above. *)
Definition reply_ok (srv : Server) (deferred : bool) (ev : event)
    (result : value) : list effect :=
  match _replyTo srv ev "OK" result with
  | inr p => [Posted deferred p]
  | inl e => reply_error srv deferred ev e
  end.

(** The argument list [apply] builds from its second argument: a primitive
    is a TypeError. *)
Definition apply_args (v : value) : option (list value) :=
  match v with
  | VArr items => Some items
  | VUndef | VNull => Some []
  | VObj _ | VErr _ _ _ _ | VWin _ => Some (array_like h v)
  | _ => None
  end.

(** Line 173 *)
Definition identity (ev : event) : value :=
  VObj [("callingWindow", VWin (source ev)); ("callingOrigin", VStr (origin ev))].

(** The identity object as the specification words it (section 4.3):
    [{callingSource, callingOrigin}]. *)
Definition identity_as_specified (ev : event) : value :=
  VObj [("callingSource", VWin (source ev)); ("callingOrigin", VStr (origin ev))].

(** Line 169: [message.data.args || []]. *)
Definition message_args (ev : event) : value :=
  let args := prop (data ev) "args" in
  if truthy args then args else VArr [].

(** Lines 171 to 174 and the argument list of line 204. *)
Definition call_args (srv : Server) (ev : event) (command : value)
    : option (list value) :=
  if useAccessControl srv && negb (is_str command "getRpcInterface")
  then match iterate (message_args ev) with
       | Some items => Some (identity ev :: items)
       | None => None
       end
  else apply_args (message_args ev).

(** How the body of [try] ends: by the [return] of line 166, by a throw,
    or at its end. *)
Inductive tried :=
| Ignored
| Thrown (st : instance) (e : value)
| Completed (st : instance) (effects : list effect).

Definition unknown_command : value :=
  VErr "Error" "Unknown command" (VStr (new_stack h "Unknown command")) VUndef.

(** The reply to a command that is not on the whitelist, with the clone
    [id] of the id of the request. *)
Definition unknown_command_reply (srv : Server) (ev : event) (id : value) : post :=
  {| to := source ev;
     message :=
       VObj [("status", VStr "error");
             ("result", VObj [("message", VStr "Unknown command");
                              ("stack", VStr (new_stack h "Unknown command"));
                              ("code", VUndef)]);
             ("interfaceName", VStr (_name srv));
             ("id", id)];
     target_origin := origin ev |}.

(** Lines 166 to 196.  Once [message.data.interfaceName] has been read,
    [message.data] is known to have properties. *)
Definition try_body (srv : Server) (st : instance) (ev : event) : tried :=
  match get (data ev) "interfaceName" with
  | None => Thrown st (type_error h)
  | Some interfaceName =>
      if negb (is_str interfaceName (_name srv)) then Ignored
      else
        let command := prop (data ev) "command" in
        if negb (includes (_rpcInterface srv) command)
        then Thrown st unknown_command
        else
          match call_args srv ev command, to_string command with
          | Some args, Some key =>
              match lookup_member srv key with
              | Some m =>
                  let (s', result) := m (service st) args in
                  let st' := {| service := s';
                                calls := calls st ++ [(key, args)] |} in
                  match result with
                  | Return v => Completed st' (reply_ok srv false ev v)
                  | Throw e => Thrown st' e
                  | Async (Fulfil v) => Completed st' (reply_ok srv true ev v)
                  | Async (RejectWith e) => Completed st' (reply_error srv true ev e)
                  | Async Never => Completed st' []
                  end
              | None => Thrown st (type_error h)
              end
          | _, _ => Thrown st (type_error h)
          end
  end.

(** Lines 164 to 201. *)
Definition _receive (srv : Server) (st : instance) (ev : event)
    : instance * list effect :=
  match try_body srv st ev with
  | Ignored => (st, [])
  | Thrown st' e => (st', reply_error srv false ev e)
  | Completed st' effects => (st', effects)
  end.

End Dispatcher.

Arguments class_name {S}.
Arguments member {S}.
Arguments userFunctions {S}.
Arguments onConnected {S}.
Arguments base {S}.
Arguments useAccessControl {S}.
Arguments _rpcInterface {S}.
Arguments _Server {S}.
Arguments service {S}.
Arguments calls {S}.
Arguments _name {S}.
Arguments whitelist_as_specified {S}.
Arguments addressed {S}.
Arguments getRpcInterface {S}.
Arguments lookup_member {S}.
Arguments _replyTo h {S}.
Arguments reply_error h {S}.
Arguments reply_ok h {S}.
Arguments call_args h {S}.
Arguments Ignored {S}.
Arguments Thrown {S}.
Arguments Completed {S}.
Arguments try_body h {S}.
Arguments unknown_command_reply h {S}.
Arguments _receive h {S}.

End Server.

(** ** The proxy: [RPC._Client] *)

Module Client.

Inductive promise := Pending | Fulfilled (v : value) | Rejected (e : value).

(** [resolve] and [reject] of a promise settle it once. *)
Definition settle (ps : list promise) (p : nat) (s : promise) : list promise :=
  match ps !! p with
  | Some Pending => <[p := s]> ps
  | _ => ps
  end.

Inductive effect :=
| Posted (p : post)
| Logged (text : string) (v : value)
| Escaped (e : value).

(** A proxy instance.  [stubs] are the assignments of line 130, in order:
    the property key and the function name the stub passes on; the keys are
    taken to differ from the members the class has of its own.  [promises]
    are the promises [_invoke] has returned, in order; the entry of
    [_waiting] for a call holds the index of its promise, which stands for
    the pair of continuations [{ resolve, error }]. *)
Record Client := {
  availableMethods : value;
  stubs : list (string * value);
  _targetWindow : window;
  _targetOrigin : string;
  interfaceName : string;
  _waiting : gmap Z nat;
  promises : list promise
}.

Definition with_waiting (c : Client) (w : gmap Z nat) : Client :=
  {| availableMethods := availableMethods c; stubs := stubs c;
     _targetWindow := _targetWindow c; _targetOrigin := _targetOrigin c;
     interfaceName := interfaceName c; _waiting := w; promises := promises c |}.

Definition with_promises (c : Client) (ps : list promise) : Client :=
  {| availableMethods := availableMethods c; stubs := stubs c;
     _targetWindow := _targetWindow c; _targetOrigin := _targetOrigin c;
     interfaceName := interfaceName c; _waiting := _waiting c; promises := ps |}.

(** What happens to a proxy: a call of [_invoke] with the id the random
    source gave, or a message event. *)
Inductive action :=
| Invoke (command : value) (args : list value) (id : Z)
| Receive (ev : event).

(** The function name of the stub found under a key: the last assignment
    to the key is the one that stays. *)
Fixpoint stub_command (assigned : list (string * value)) (key : string)
    : option value :=
  match assigned with
  | [] => None
  | (k, name) :: rest =>
      match stub_command rest key with
      | Some later => Some later
      | None => if String.eqb key k then Some name else None
      end
  end.

Section Proxy.

Variable h : Host.

(** [new (RPC._Client(targetWindow, targetOrigin, interfaceName, functionNames))()];
    [None] is the TypeError of the loop of line 129 over something that is
    not iterable, or of a name that has no property key. *)
Definition _Client (targetWindow : window) (targetOrigin interfaceName : string)
    (functionNames : value) : option Client :=
  match iterate functionNames with
  | None => None
  | Some names =>
      match sequence (map (fun name => match to_string name with
                                       | Some key => Some (key, name)
                                       | None => None
                                       end) names) with
      | None => None
      | Some assigned =>
          Some {| availableMethods := functionNames; stubs := assigned;
                  _targetWindow := targetWindow; _targetOrigin := targetOrigin;
                  interfaceName := interfaceName; _waiting := ∅; promises := [] |}
      end
  end.

(** Lines 117 to 126, with [id] the number [Random.getRandomId()] returned.
    The result is the new state, the index of the promise returned and the
    effects.  What the executor throws rejects the promise. *)
Definition _invoke (c : Client) (command : value) (args : list value) (id : Z)
    : Client * nat * list effect :=
  let p := length (promises c) in
  let obj := VObj [("command", command);
                   ("interfaceName", VStr (interfaceName c));
                   ("args", VArr args); ("id", VNum id)] in
  let c := with_waiting c (<[id := p]> (_waiting c)) in
  match postMessage h (_targetWindow c) obj "*" with
  | inr sent => (with_promises c (promises c ++ [Pending]), p, [Posted sent])
  | inl e => (with_promises c (promises c ++ [Rejected e]), p, [])
  end.

(** Lines 129 to 133: a call of the method [key] of the proxy; [None] when
    no stub was assigned to that key. *)
Definition stub (c : Client) (key : string) (args : list value) (id : Z)
    : option (Client * nat * list effect) :=
  match stub_command (stubs c) key with
  | Some functionName => Some (_invoke c functionName args id)
  | None => None
  end.

(** [this._waiting.get(id)]: the keys are numbers. *)
Definition waiting_get (w : gmap Z nat) (id : value) : option (Z * nat) :=
  match id with
  | VNum n => match w !! n with Some p => Some (n, p) | None => None end
  | _ => None
  end.

(** The condition of lines 87 to 90; [None] is the TypeError of reading
    [data.status]. *)
Definition discards (c : Client) (ev : event) : option bool :=
  if negb (Nat.eqb (source ev) (_targetWindow c)) then Some true
  else
    match get (data ev) "status", get (data ev) "interfaceName" with
    | Some status, Some name =>
        Some (negb (truthy status)
              || negb (is_str name (interfaceName c))
              || (negb (String.eqb (_targetOrigin c) "*")
                  && negb (String.eqb (origin ev) (_targetOrigin c))))
    | _, _ => None
    end.

(** Lines 99 to 107, for the call whose promise is [p]. *)
Definition answer (c : Client) (p : nat) (status result : value)
    : Client * list effect :=
  if is_str status "OK"
  then (with_promises c (settle (promises c) p (Fulfilled result)), [])
  else if is_str status "error"
  then match get result "message", get result "stack", get result "code" with
       | Some message, Some stack, Some code =>
           match new_error_message message with
           | Some text =>
               (with_promises c
                  (settle (promises c) p (Rejected (VErr "Error" text stack code))), [])
           | None => (c, [Escaped (type_error h)])
           end
       | _, _, _ => (c, [Escaped (type_error h)])
       end
  else (c, []).

(** Lines 83 to 109. *)
Definition _receive (c : Client) (ev : event) : Client * list effect :=
  match discards c ev with
  | None => (c, [Escaped (type_error h)])
  | Some true => (c, [])
  | Some false =>
      match get (data ev) "id", get (data ev) "status", get (data ev) "result" with
      | Some id, Some status, Some result =>
          match waiting_get (_waiting c) id with
          | None => (c, [Logged "Unknown reply" (data ev)])
          | Some (key, p) =>
              answer (with_waiting c (delete key (_waiting c))) p status result
          end
      | _, _, _ => (c, [Escaped (type_error h)])
      end
  end.

Definition perform (c : Client) (a : action) : Client :=
  match a with
  | Invoke command args id => fst (fst (_invoke c command args id))
  | Receive ev => fst (_receive c ev)
  end.

(** The proxy after the replies [evs], in their order of arrival. *)
Definition receive_all (c : Client) (evs : list event) : Client :=
  foldl (fun c ev => fst (_receive c ev)) c evs.

End Proxy.

(** The number a reply that passes the filter looks up in [_waiting]. *)
Definition key_of (c : Client) (ev : event) : option Z :=
  match discards c ev with
  | Some false =>
      match prop (data ev) "id" with
      | VNum n => Some n
      | _ => None
      end
  | _ => None
  end.

(** How lines 99 to 107 settle the promise of the call a reply is for, if
    they settle it. *)
Definition verdict (ev : event) : option promise :=
  let status := prop (data ev) "status" in
  let result := prop (data ev) "result" in
  if is_str status "OK" then Some (Fulfilled result)
  else if is_str status "error"
  then match get result "message", get result "stack", get result "code" with
       | Some message, Some stack, Some code =>
           match new_error_message message with
           | Some text => Some (Rejected (VErr "Error" text stack code))
           | None => None
           end
       | _, _, _ => None
       end
  else None.

(** Two replies carry the same number as id. *)
Definition clash (a b : event) : bool :=
  match prop (data a) "id", prop (data b) "id" with
  | VNum x, VNum y => x =? y
  | _, _ => false
  end.

(** No two replies of the list carry the same number as id. *)
Fixpoint apart (evs : list event) : bool :=
  match evs with
  | [] => true
  | ev :: rest => forallb (fun ev' => negb (clash ev ev')) rest && apart rest
  end.

Fixpoint distinct (l : list nat) : bool :=
  match l with
  | [] => true
  | x :: rest => negb (existsb (Nat.eqb x) rest) && distinct rest
  end.

(** No two entries of [_waiting] hold the same promise, and each holds one
    of [promises]: each call of [_invoke] makes its own. *)
Definition wf (c : Client) : bool :=
  let held := map snd (map_to_list (_waiting c)) in
  distinct held && forallb (fun p => Nat.ltb p (length (promises c))) held.

(** The same, as propositions on the entries. *)
Definition one_promise_each (c : Client) : Prop :=
  forall (n m : Z) (p : nat),
    _waiting c !! n = Some p -> _waiting c !! m = Some p -> n = m.

(** Every entry of [_waiting] holds a promise that [_invoke] returned. *)
Definition bounded (c : Client) : Prop :=
  forall (n : Z) (p : nat),
    _waiting c !! n = Some p -> (p < length (promises c))%nat.

(** No entry of [_waiting] holds the promise [p]. *)
Definition orphan (c : Client) (p : nat) : Prop :=
  forall n : Z, _waiting c !! n <> Some p.

End Client.

(** ** The connector: [RPC.Client] *)

Module Connector.

(** The two callbacks given to [setTimeout]. *)
Inductive task := TryToConnect | Timeout.

(** A pending timer: its id, the time it is due and its callback. *)
Record timer := { timer_id : nat; due : Z; job : task }.

Inductive outcome := Unsettled | Resolved (c : Client.Client) | Failed (e : value).

(** The state of one call of [RPC.Client]: the variables of the closure
    ([connected], [connectTimer], [timeoutTimer]), whether
    [interfaceListener] is registered, the promise returned, the host's
    pending timers and clock, and what has been sent, logged and built. *)
Record Connector := {
  targetWindow : window;
  interfaceName : string;
  targetOrigin : string;
  connected : bool;
  listening : bool;
  promise : outcome;
  connectTimer : option nat;
  timeoutTimer : option nat;
  timers : list timer;
  next_timer : nat;
  clock : Z;
  sent : list post;
  logged : list value;
  proxies : list Client.Client
}.

Section Handshake.

Variable h : Host.

(** [setTimeout(job, delay)]: the new state and the timer's id. *)
Definition setTimeout (timers : list timer) (next : nat) (now : Z) (job : task)
    (delay : Z) : list timer * nat :=
  (timers ++ [{| timer_id := next; due := now + delay; job := job |}], S next).

(** [clearTimeout(id)]; the id is [undefined] before the first assignment. *)
Definition clearTimeout (timers : list timer) (id : option nat) : list timer :=
  match id with
  | Some i => filter (fun t => timer_id t ≠ i) timers
  | None => timers
  end.

(** Lines 12 to 52: the executor of the promise. *)
Definition start (targetWindow : window) (interfaceName targetOrigin : string)
    : Connector :=
  let '(timers, next) := setTimeout [] 0%nat 0 Timeout 30000 in
  let timeoutTimer := 0%nat in
  let connectTimer := next in
  let '(timers, next) := setTimeout timers next 0 TryToConnect 100 in
  {| targetWindow := targetWindow; interfaceName := interfaceName;
     targetOrigin := targetOrigin; connected := false; listening := true;
     promise := Unsettled; connectTimer := Some connectTimer;
     timeoutTimer := Some timeoutTimer; timers := timers; next_timer := next;
     clock := 0; sent := []; logged := []; proxies := [] |}.

(** A call [RPC.Client(targetWindow, interfaceName, targetOrigin, ...more)]:
    [targetOrigin] is ['*'] when the third argument is missing (line 11), and
    the function has no parameter for further arguments. *)
Definition Client (targetWindow : window) (interfaceName : string)
    (targetOrigin : option string) (more : list value) : Connector :=
  start targetWindow interfaceName
    (match targetOrigin with
     | Some given => given
     | None => "*"
     end).

(** The time the handshake is given as the specification words it (section
    4.1): the fourth argument [timeoutMs], and 30000 when there is none. *)
Definition timeout_as_specified (more : list value) : Z :=
  match more with
  | VNum timeoutMs :: _ => timeoutMs
  | _ => 30000
  end.

Definition timeout_error : value :=
  VErr "Error" "Connection timeout" (VStr (new_stack h "Connection timeout")) VUndef.

(** [resolve] and [reject] settle the promise once. *)
Definition settle (p : outcome) (s : outcome) : outcome :=
  match p with
  | Unsettled => s
  | _ => p
  end.

(** Lines 32 to 35. *)
Definition on_timeout (s : Connector) : Connector :=
  {| targetWindow := targetWindow s; interfaceName := interfaceName s;
     targetOrigin := targetOrigin s; connected := connected s;
     listening := listening s;
     promise := settle (promise s) (Failed timeout_error);
     connectTimer := connectTimer s; timeoutTimer := timeoutTimer s;
     timers := clearTimeout (timers s) (connectTimer s);
     next_timer := next_timer s; clock := clock s; sent := sent s;
     logged := logged s; proxies := proxies s |}.

(** The handshake request of line 44. *)
Definition handshake (s : Connector) : post :=
  {| to := targetWindow s;
     message := VObj [("command", VStr "getRpcInterface");
                      ("interfaceName", VStr (interfaceName s));
                      ("id", VNum 0)];
     target_origin := targetOrigin s |}.

(** Lines 37 to 49.  [failure] is what [postMessage] throws at this
    attempt, if it throws. *)
Definition tryToConnect (failure : option value) (s : Connector) : Connector :=
  if connected s
  then
    {| targetWindow := targetWindow s; interfaceName := interfaceName s;
       targetOrigin := targetOrigin s; connected := connected s;
       listening := listening s; promise := promise s;
       connectTimer := connectTimer s; timeoutTimer := timeoutTimer s;
       timers := clearTimeout (timers s) (timeoutTimer s);
       next_timer := next_timer s; clock := clock s; sent := sent s;
       logged := logged s; proxies := proxies s |}
  else
    let '(timers', next') :=
      setTimeout (timers s) (next_timer s) (clock s) TryToConnect 1000 in
    {| targetWindow := targetWindow s; interfaceName := interfaceName s;
       targetOrigin := targetOrigin s; connected := connected s;
       listening := listening s; promise := promise s;
       connectTimer := Some (next_timer s); timeoutTimer := timeoutTimer s;
       timers := timers'; next_timer := next'; clock := clock s;
       sent := match failure with
               | None => sent s ++ [handshake s]
               | Some _ => sent s
               end;
       logged := match failure with
                 | None => logged s
                 | Some e => logged s ++ [e]
                 end;
       proxies := proxies s |}.

(** The condition of lines 16 to 19; [None] is the TypeError of reading
    [message.data.status]. *)
Definition discards (s : Connector) (ev : event) : option bool :=
  if negb (Nat.eqb (source ev) (targetWindow s)) then Some true
  else
    match get (data ev) "status", get (data ev) "interfaceName" with
    | Some status, Some name =>
        Some (negb (is_str status "OK")
              || negb (is_str name (interfaceName s))
              || (negb (String.eqb (targetOrigin s) "*")
                  && negb (String.eqb (origin ev) (targetOrigin s))))
    | _, _ => None
    end.

(** Lines 15 to 26.  The second component is what escapes the listener. *)
Definition interfaceListener (s : Connector) (ev : event)
    : Connector * option value :=
  match discards s ev with
  | None => (s, Some (type_error h))
  | Some true => (s, None)
  | Some false =>
      let built :=
        match get (data ev) "result" with
        | Some result =>
            Client._Client (targetWindow s) (targetOrigin s) (interfaceName s) result
        | None => None
        end in
      ({| targetWindow := targetWindow s; interfaceName := interfaceName s;
          targetOrigin := targetOrigin s; connected := true;
          listening := false;
          promise := match built with
                     | Some c => settle (promise s) (Resolved c)
                     | None => promise s
                     end;
          connectTimer := connectTimer s; timeoutTimer := timeoutTimer s;
          timers := timers s; next_timer := next_timer s; clock := clock s;
          sent := sent s; logged := logged s;
          proxies := match built with
                     | Some c => proxies s ++ [c]
                     | None => proxies s
                     end |},
       match built with
       | Some _ => None
       | None => Some (type_error h)
       end)
  end.

(** What the host's event loop hands to this code: a pending timer that
    fires (with what [postMessage] throws in its callback, if it does), or a
    message event on [self]. *)
Inductive input :=
| Fire (id : nat) (failure : option value)
| Message (ev : event).

Definition find_timer (id : nat) (ts : list timer) : option timer :=
  List.find (fun t => Nat.eqb (timer_id t) id) ts.

(** A timer that fires leaves the pending ones; the clock is then at least
    its due time.  A timer that is not pending does not fire. *)
Definition fire (id : nat) (failure : option value) (s : Connector) : Connector :=
  match find_timer id (timers s) with
  | None => s
  | Some t =>
      let s' :=
        {| targetWindow := targetWindow s; interfaceName := interfaceName s;
           targetOrigin := targetOrigin s; connected := connected s;
           listening := listening s; promise := promise s;
           connectTimer := connectTimer s; timeoutTimer := timeoutTimer s;
           timers := filter (fun t' => timer_id t' ≠ id) (timers s);
           next_timer := next_timer s; clock := Z.max (clock s) (due t);
           sent := sent s; logged := logged s; proxies := proxies s |} in
      match job t with
      | Timeout => on_timeout s'
      | TryToConnect => tryToConnect failure s'
      end
  end.

Definition step (s : Connector) (i : input) : Connector :=
  match i with
  | Fire id failure => fire id failure s
  | Message ev => if listening s then fst (interfaceListener s ev) else s
  end.

Definition run (s : Connector) (inputs : list input) : Connector :=
  foldl step s inputs.

(** An input that is not a handshake reply the listener accepts. *)
Definition unanswered (s : Connector) (i : input) : bool :=
  match i with
  | Fire _ _ => true
  | Message ev =>
      match discards s ev with
      | Some false => false
      | _ => true
      end
  end.

(** The timer set at line 32. *)
Definition timeout_timer : timer :=
  {| timer_id := 0%nat; due := 30000; job := Timeout |}.

(** The handshake is under way: nothing has connected or settled, the
    timeout timer is pending, and any other pending timer is the retry that
    [connectTimer] names. *)
Definition awaiting (s : Connector) : Prop :=
  connected s = false /\ promise s = Unsettled /\ listening s = true
  /\ timeoutTimer s = Some 0%nat
  /\ find_timer 0%nat (timers s) = Some timeout_timer
  /\ exists j : nat,
       connectTimer s = Some j /\ (0 < j < next_timer s)%nat
       /\ forall t, In t (timers s) ->
                    timer_id t = 0%nat \/ (timer_id t = j /\ job t = TryToConnect).

(** The timeout callback has rejected the promise and no timer is left. *)
Definition timed_out (s : Connector) : Prop :=
  promise s = Failed timeout_error /\ timers s = [].

(** The timer the host fires next when its clock is ideal: the pending
    timer that is due first, the older one of two due together. *)
Definition earliest (ts : list timer) : option timer :=
  foldl (fun best t =>
           match best with
           | None => Some t
           | Some b => if due t <? due b then Some t else Some b
           end) None ts.

Fixpoint ideal (n : nat) (s : Connector) : Connector :=
  match n with
  | O => s
  | S n' =>
      match earliest (timers s) with
      | Some t => ideal n' (fire (timer_id t) None s)
      | None => s
      end
  end.

End Handshake.

End Connector.

(** ** The listeners of the global object *)

Module Page.

(** [self], as far as this program uses it: the number of function objects
    [bind] has made (a function object is known by its number) and the
    listeners of ['message'], in the order they were added. *)
Record Self := { functions : nat; listeners : list nat }.

(** [f.bind(this)] makes a function object that did not exist before. *)
Definition bind (s : Self) : nat * Self :=
  (functions s, {| functions := S (functions s); listeners := listeners s |}).

(** [self.addEventListener('message', f)] does nothing for a listener that
    is registered already. *)
Definition addEventListener (s : Self) (f : nat) : Self :=
  if existsb (Nat.eqb f) (listeners s) then s
  else {| functions := functions s; listeners := listeners s ++ [f] |}.

(** [self.removeEventListener('message', f)] removes the listener that is
    this very function object. *)
Definition removeEventListener (s : Self) (f : nat) : Self :=
  {| functions := functions s; listeners := filter (fun g => g ≠ f) (listeners s) |}.

(** Every listener is a function object that exists. *)
Definition known (s : Self) : bool :=
  forallb (fun f => Nat.ltb f (functions s)) (listeners s).

Section Dispatcher.

Variable h : Host.
Variable S : Type.

(** A page with one dispatcher instance: [bound] are the function objects
    made by [this._receive.bind(this)]; the other listeners belong to other
    code. *)
Record page := {
  self : Self;
  bound : list nat;
  dispatcher : Server.instance S
}.

(** Lines 150 to 154, after [super()] has made the service state. *)
Definition constructor (s : Self) (st : Server.instance S) : page :=
  let '(f, s) := bind s in
  {| self := addEventListener s f; bound := [f]; dispatcher := st |}.

(** Lines 156 to 158. *)
Definition close (pg : page) : page :=
  let '(f, s) := bind (self pg) in
  {| self := removeEventListener s f; bound := f :: bound pg;
     dispatcher := dispatcher pg |}.

(** A message event on [self] runs the listeners in order. *)
Definition dispatchEvent (srv : Server.Server S) (pg : page) (ev : event)
    : Server.instance S * list Server.effect :=
  foldl (fun acc f =>
           if existsb (Nat.eqb f) (bound pg)
           then let '(st, out) := Server._receive h srv (fst acc) ev in
                (st, snd acc ++ out)
           else acc)
        (dispatcher pg, []) (listeners (self pg)).

End Dispatcher.

Arguments self {S}.
Arguments bound {S}.
Arguments dispatcher {S}.
Arguments constructor {S}.
Arguments close {S}.
Arguments dispatchEvent h {S}.

(** The proxy keeps the function object it registered (lines 75 and 76) and
    removes that one (line 80). *)
Record proxy_page := { proxy_self : Self; proxy_receive : nat }.

Definition proxy_constructor (s : Self) : proxy_page :=
  let '(f, s) := bind s in
  {| proxy_self := addEventListener s f; proxy_receive := f |}.

Definition proxy_close (pg : proxy_page) : proxy_page :=
  {| proxy_self := removeEventListener (proxy_self pg) (proxy_receive pg);
     proxy_receive := proxy_receive pg |}.

End Page.

(** ** A proxy and a dispatcher on the two ends of the channel *)

Module Link.

Section RoundTrip.

Variable h : Host.
Variable S : Type.
(** The origin of each window, and the windows of the proxy and of the
    dispatcher. *)
Variable origin_of : window -> string.
Variable client_window server_window : window.

(** The dispatcher's turn for what the proxy did. *)
Definition server_turn (srv : Server.Server S)
    (acc : Server.instance S * list Server.effect) (e : Client.effect)
    : Server.instance S * list Server.effect :=
  match e with
  | Client.Posted p =>
      if Nat.eqb (to p) server_window
      then match deliver origin_of client_window p with
           | Some ev =>
               let '(st, out) := Server._receive h srv (fst acc) ev in
               (st, snd acc ++ out)
           | None => acc
           end
      else acc
  | _ => acc
  end.

(** The proxy's turn for what the dispatcher did. *)
Definition client_turn (c : Client.Client) (e : Server.effect) : Client.Client :=
  match e with
  | Server.Posted _ p =>
      if Nat.eqb (to p) client_window
      then match deliver origin_of server_window p with
           | Some ev => fst (Client._receive h c ev)
           | None => c
           end
      else c
  | Server.Escaped _ _ => c
  end.

(** One call through the stub [functionName]: the request, the dispatch
    and the reply.  The result is the proxy, the dispatcher and the index
    of the promise the stub returned; [None] when there is no such stub. *)
Definition call (c : Client.Client) (srv : Server.Server S)
    (st : Server.instance S) (functionName : string) (args : list value)
    (id : Z) : option (Client.Client * Server.instance S * nat) :=
  match Client.stub h c functionName args id with
  | None => None
  | Some (c, p, out) =>
      let '(st, replies) := foldl (server_turn srv) (st, []) out in
      Some (foldl client_turn c replies, st, p)
  end.

(** The event the dispatcher gets for a request of the proxy. *)
Definition request_event (data : value) : event :=
  {| source := client_window; origin := origin_of client_window; data := data |}.

(** The event the dispatcher gets for a call of a stub. *)
Definition request (c : Client.Client) (functionName : string)
    (args : list value) (id : Z) : event :=
  request_event
    (VObj [("command", VStr functionName);
           ("interfaceName", VStr (Client.interfaceName c));
           ("args", VArr args); ("id", VNum id)]).

(** The event the proxy gets for a reply of the dispatcher. *)
Definition reply (srv : Server.Server S) (status : string) (result : value)
    (id : Z) : event :=
  {| source := server_window; origin := origin_of server_window;
     data := VObj [("status", VStr status); ("result", result);
                   ("interfaceName", VStr (Server._name srv)); ("id", VNum id)] |}.

(** The proxy between the request and the reply. *)
Definition calling (c : Client.Client) (id : Z) : Client.Client :=
  Client.with_promises
    (Client.with_waiting c (<[id := length (Client.promises c)]> (Client._waiting c)))
    (Client.promises c ++ [Client.Pending]).

(** The arguments the method is applied to for a call of the stub. *)
Definition arguments_seen (srv : Server.Server S) (functionName : string)
    (args : list value) : list value :=
  if Server.useAccessControl srv && negb (String.eqb functionName "getRpcInterface")
  then Server.identity (request_event VUndef) :: args
  else args.

(** The proxy was built for this dispatcher. *)
Definition connected (c : Client.Client) (srv : Server.Server S) : bool :=
  Nat.eqb (Client._targetWindow c) server_window
  && String.eqb (Client.interfaceName c) (Server._name srv)
  && (String.eqb (Client._targetOrigin c) "*"
      || String.eqb (Client._targetOrigin c) (origin_of server_window)).

End RoundTrip.

Arguments server_turn h {S}.
Arguments call h {S}.
Arguments arguments_seen {S}.
Arguments reply {S}.
Arguments connected {S}.

End Link.

(** ** Concrete hosts and a concrete service, for the examples *)

Module Demo.

(** A host whose structured clone keeps Error objects (name, message and
    stack), and one that refuses them. *)
Definition modern : Host :=
  {| new_stack := fun m => ("Error: " ++ m)%string;
     type_error := VErr "TypeError" "not a function" (VStr "TypeError") VUndef;
     data_clone_error :=
       VErr "DataCloneError" "could not be cloned" (VStr "DataCloneError") VUndef;
     clone_error := fun n m s _ => Some (VErr n m s VUndef);
     array_like := fun _ => [] |}.

Definition legacy : Host :=
  {| new_stack := new_stack modern;
     type_error := type_error modern;
     data_clone_error := data_clone_error modern;
     clone_error := fun _ _ _ _ => None;
     array_like := array_like modern |}.

(** A service that counts its calls: [ping] answers ["pong"], [whoami]
    returns its first argument, [fail] throws an Error, [failLater] returns
    a promise rejected with one, [quiet] throws an Error without message. *)
Definition boom : value := VErr "Error" "boom" (VStr "Error: boom") (VNum 7).
Definition mute : value := VErr "Error" "" (VStr "Error") VUndef.

Definition Ledger : Server.clazz nat :=
  {| Server.class_name := "Ledger";
     Server.member := fun key =>
       if String.eqb key "ping" then Some (fun n _ => (S n, Server.Return (VStr "pong")))
       else if String.eqb key "whoami"
       then Some (fun n args => (S n, Server.Return (List.hd VUndef args)))
       else if String.eqb key "fail" then Some (fun n _ => (S n, Server.Throw boom))
       else if String.eqb key "failLater"
       then Some (fun n _ => (S n, Server.Async (Server.RejectWith boom)))
       else if String.eqb key "quiet" then Some (fun n _ => (S n, Server.Throw mute))
       else None;
     Server.userFunctions := ["ping"; "whoami"; "fail"; "failLater"; "quiet"];
     Server.onConnected := None |}.

Definition fresh : Server.instance nat := {| Server.service := 0%nat; Server.calls := [] |}.

(** Window 1 holds the proxy and window 2 the dispatcher. *)
Definition origin_of (w : window) : string :=
  match w with
  | 1%nat => "https://app"
  | 2%nat => "https://x"
  | _ => "https://evil"
  end.

Definition request (command : string) (args : list value) (id : Z) : event :=
  {| source := 1%nat; origin := "https://app";
     data := VObj [("command", VStr command); ("interfaceName", VStr "Ledger");
                   ("args", VArr args); ("id", VNum id)] |}.

Definition reply (from : string) (status : string) (result : value) (id : Z) : event :=
  {| source := 2%nat; origin := from;
     data := VObj [("status", VStr status); ("result", result);
                   ("interfaceName", VStr "Ledger"); ("id", VNum id)] |}.

(** The dispatcher of [Ledger] with access control and the reflected
    whitelist, and the proxy the handshake with it builds in window 1, the
    replies being expected from the origin of window 2. *)
Definition dispatcher : Server.Server nat := Server._Server Ledger true None.

Definition proxy : Client.Client :=
  {| Client.availableMethods := VArr (map VStr (Server._rpcInterface dispatcher));
     Client.stubs := map (fun name => (name, VStr name)) (Server._rpcInterface dispatcher);
     Client._targetWindow := 2%nat;
     Client._targetOrigin := "https://x";
     Client.interfaceName := "Ledger";
     Client._waiting := ∅;
     Client.promises := [] |}.

(** The proxy with two calls of [ping] outstanding, under the ids 11 and 22. *)
Definition busy : Client.Client :=
  fst (fst (Client._invoke modern
              (fst (fst (Client._invoke modern proxy (VStr "ping") [] 11)))
              (VStr "ping") [] 22)).

(** A page on which nothing has been registered yet. *)
Definition blank : Page.Self := {| Page.functions := 0%nat; Page.listeners := [] |}.

End Demo.

(** ** The handshake between a connector and a dispatcher *)

Module Handshake.

(** The handshake is under way and the retry that [connectTimer] names is
    pending. *)
Definition retrying (s : Connector.Connector) : Prop :=
  Connector.awaiting s
  /\ exists (j : nat) (t : Connector.timer),
       Connector.connectTimer s = Some j
       /\ Connector.find_timer j (Connector.timers s) = Some t.

(** The listener is registered and no proxy has been built. *)
Definition silent (s : Connector.Connector) : Prop :=
  Connector.listening s = true /\ Connector.proxies s = [].

(** The reply is addressed to the sender of [ev]: it goes to its source with
    its origin as target origin, and carries a status, a result, the name of
    the dispatcher and the clone of the id of [ev] (line 161). *)
Definition answers_to (h : Host) (name : string) (ev : event) (p : post) : Prop :=
  to p = source ev
  /\ target_origin p = origin ev
  /\ exists (status : string) (result id : value),
       message p = VObj [("status", VStr status); ("result", result);
                         ("interfaceName", VStr name); ("id", id)]
       /\ (status = "OK" \/ status = "error")
       /\ structured_clone h (prop (data ev) "id") = Some id.

Definition effect_answers_to (h : Host) (name : string) (ev : event)
    (e : Server.effect) : Prop :=
  match e with
  | Server.Posted _ p => answers_to h name ev p
  | Server.Escaped _ _ => True
  end.

Section Connect.

Variable h : Host.
Variable S : Type.
Variable origin_of : window -> string.
Variable client_window server_window : window.

(** The dispatcher's turn for a request the connector sent. *)
Definition answers (srv : Server.Server S) (st : Server.instance S) (p : post)
    : Server.instance S * list Server.effect :=
  if Nat.eqb (to p) server_window
  then match deliver origin_of client_window p with
       | Some ev => Server._receive h srv st ev
       | None => (st, [])
       end
  else (st, []).

(** The connector's turn for what the dispatcher did. *)
Definition hears (s : Connector.Connector) (e : Server.effect)
    : Connector.Connector :=
  match e with
  | Server.Posted _ p =>
      if Nat.eqb (to p) client_window
      then match deliver origin_of server_window p with
           | Some ev => Connector.step h s (Connector.Message ev)
           | None => s
           end
      else s
  | Server.Escaped _ _ => s
  end.

(** A call of [RPC.Client] in the client window up to the first answer: the
    first retry timer fires, its request is dispatched, and the replies
    reach the listener. *)
Definition connect (targetWindow : window) (interfaceName : string)
    (targetOrigin : option string) (more : list value)
    (srv : Server.Server S) (st : Server.instance S)
    : Connector.Connector * Server.instance S :=
  let s := Connector.step h
             (Connector.Client targetWindow interfaceName targetOrigin more)
             (Connector.Fire 1%nat None) in
  match Connector.sent s with
  | [request] =>
      let '(st', replies) := answers srv st request in
      (foldl hears s replies, st')
  | _ => (s, st)
  end.

(** The service state after the [onConnected] hook, if there is one. *)
Definition after_hook (c : Server.clazz S) (s : S) : S :=
  match Server.onConnected c with
  | Some hook => fst (hook s)
  | None => s
  end.

(** The [onConnected] hook, if there is one, returns without throwing. *)
Definition hook_returns (c : Server.clazz S) (s : S) : bool :=
  match Server.onConnected c with
  | Some hook => match snd (hook s) with None => true | Some _ => false end
  | None => true
  end.

(** The target origin accepts the window of the dispatcher. *)
Definition reaches (targetOrigin : option string) : bool :=
  match targetOrigin with
  | None => true
  | Some given => String.eqb given "*" || String.eqb given (origin_of server_window)
  end.

End Connect.

Arguments answers h {S}.
Arguments connect h {S}.
Arguments after_hook {S}.
Arguments hook_returns {S}.

End Handshake.

(** ** More concrete inputs *)

Module Sample.

Import Demo.

(** The dispatcher of [Ledger] without access control. *)
Definition open_dispatcher : Server.Server nat := Server._Server Ledger false None.

(** A service that counts the handshakes in its state and whose only
    method throws a string. *)
Definition Vault : Server.clazz nat :=
  {| Server.class_name := "Vault";
     Server.member := fun key =>
       if String.eqb key "deny"
       then Some (fun n _ => (n, Server.Throw (VStr "denied")))
       else None;
     Server.userFunctions := ["deny"];
     Server.onConnected := Some (fun n => (S n, None)) |}.

Definition vault : Server.Server nat := Server._Server Vault true None.

(** The proxy the handshake with [vault] builds. *)
Definition vault_proxy : Client.Client :=
  {| Client.availableMethods := VArr [VStr "deny"; VStr "getRpcInterface"];
     Client.stubs := [("deny", VStr "deny"); ("getRpcInterface", VStr "getRpcInterface")];
     Client._targetWindow := 2%nat;
     Client._targetOrigin := "*";
     Client.interfaceName := "Vault";
     Client._waiting := ∅;
     Client.promises := [] |}.

(** The proxy a handshake reply with the names [["ping"]] builds for a
    call of [RPC.Client] without target origin. *)
Definition ping_proxy : Client.Client :=
  {| Client.availableMethods := VArr [VStr "ping"];
     Client.stubs := [("ping", VStr "ping")];
     Client._targetWindow := 2%nat;
     Client._targetOrigin := "*";
     Client.interfaceName := "Ledger";
     Client._waiting := ∅;
     Client.promises := [] |}.

(** A call of [RPC.Client] after its first request. *)
Definition asking : Connector.Connector :=
  Connector.step modern (Connector.Client 2%nat "Ledger" None [])
    (Connector.Fire 1%nat None).

End Sample.

(** * Properties *)

(** ** Values and the channel *)

Section ValueFacts.

Variable h : Host.

Lemma get_nullish (v : value) (k : string) :
  get v k = None <-> nullish v = true.
Proof. destruct v; simpl; split; intros H; congruence. Qed.

Lemma get_some_any (v : value) (k k' : string) (x : value) :
  get v k = Some x -> get v k' = Some (prop v k').
Proof.
  intros H. unfold prop.
  destruct (get v k') eqn:E; [reflexivity|].
  apply get_nullish in E. apply (get_nullish v k) in E. congruence.
Qed.

Lemma sequence_map_id {A} (f : A -> option A) (l : list A) :
  Forall (fun x => f x = Some x) l -> sequence (map f l) = Some l.
Proof.
  induction 1 as [|x l Hx _ IH]; simpl; [reflexivity|].
  rewrite Hx, IH. reflexivity.
Qed.

(** The clone of a plain value is the value. *)
Lemma clone_plain (v : value) :
  plain v = true -> structured_clone h v = Some v.
Proof.
  induction v as [| |b|n|s|items IH|fs IH|n m s IHs c IHc|w]
    using JS.value_ind; simpl; intros Hp; try reflexivity; try discriminate.
  - rewrite sequence_map_id; [reflexivity|].
    rewrite List.forallb_forall in Hp.
    rewrite List.Forall_forall in IH |- *. intros x Hx.
    apply IH; [exact Hx|]. apply Hp. exact Hx.
  - assert (E : sequence (map (fun kv : string * value =>
                 match structured_clone h kv.2 with
                 | Some v' => Some (kv.1, v')
                 | None => None
                 end) fs) = Some fs).
    { rewrite List.forallb_forall in Hp.
      apply (sequence_map_id (fun kv : string * value =>
                 match structured_clone h kv.2 with
                 | Some v' => Some (kv.1, v')
                 | None => None
                 end)).
      rewrite List.Forall_forall in IH |- *. intros [k x] Hx. simpl.
      specialize (IH (k, x) Hx). specialize (Hp (k, x) Hx). simpl in IH, Hp.
      rewrite (IH Hp). reflexivity. }
    rewrite E. reflexivity.
Qed.

(** A field of an object that can be cloned can be cloned. *)
Lemma clone_field (fs : list (string * value)) (k : string) :
  cloneable h (VObj fs) = true ->
  exists v, structured_clone h (field k fs) = Some v.
Proof.
  unfold cloneable. simpl.
  induction fs as [|[k' x] fs IH]; simpl; intros H.
  - exists VUndef. reflexivity.
  - destruct (structured_clone h x) as [x'|] eqn:Ex; [|discriminate].
    destruct (String.eqb k k').
    + exists x'. exact Ex.
    + apply IH.
      destruct (sequence _); [reflexivity|discriminate].
Qed.

Lemma clone_id_of_data (d : value) :
  cloneable h d = true ->
  exists v, structured_clone h (prop d "id") = Some v.
Proof.
  intros H. destruct d; try (exists VUndef; reflexivity).
  - unfold prop. simpl. apply clone_field. exact H.
Qed.

End ValueFacts.

(** ** The dispatcher *)

Section DispatcherFacts.

Variable h : Host.
Variable S : Type.

Implicit Types (srv : Server.Server S) (st : Server.instance S) (ev : event).

Lemma foldl_push {A} (l acc : list A) : foldl Server.push acc l = acc ++ l.
Proof.
  revert acc. induction l as [|x l IH]; intros acc; simpl.
  - symmetry. apply app_nil_r.
  - rewrite IH. unfold Server.push. rewrite <- app_assoc. reflexivity.
Qed.

Lemma existsb_eqb_In (x : string) (l : list string) :
  existsb (String.eqb x) l = true <-> In x l.
Proof.
  rewrite List.existsb_exists. split.
  - intros [y [Hy E]]. apply String.eqb_eq in E. subst. exact Hy.
  - intros H. exists x. split; [exact H|apply String.eqb_refl].
Qed.

(** C7, as amended: the whitelist is the given list, or else the reflected
    names, followed by the handshake name in every case; it is the list the
    specification describes exactly when the handshake name was not among
    the names already. *)
Theorem whitelist_appends_handshake (c : Server.clazz S) (useAccessControl : bool)
    (rpcInterface : option (list string)) :
  let names := match rpcInterface with
               | Some given => given
               | None => Server.userFunctions c
               end in
  Server._rpcInterface (Server._Server c useAccessControl rpcInterface)
    = names ++ ["getRpcInterface"]
  /\ (Server._rpcInterface (Server._Server c useAccessControl rpcInterface)
        = Server.whitelist_as_specified c rpcInterface
      <-> ~ In "getRpcInterface" names).
Proof.
  intros names.
  assert (E : Server._rpcInterface (Server._Server c useAccessControl rpcInterface)
              = names ++ ["getRpcInterface"]).
  { unfold Server._Server, names. simpl. unfold Server.push at 1.
    destruct rpcInterface; [reflexivity|]. rewrite foldl_push. reflexivity. }
  split; [exact E|]. rewrite E. unfold Server.whitelist_as_specified. fold names.
  destruct (existsb (String.eqb "getRpcInterface") names) eqn:X.
  - apply existsb_eqb_In in X. split; [|intros N; contradiction].
    intros A. apply (f_equal (@length string)) in A.
    rewrite length_app in A. simpl in A. lia.
  - split; [|reflexivity]. intros _ I. apply existsb_eqb_In in I. congruence.
Qed.

(** A message that does not name this dispatcher's interface leaves the
    instance as it was and gets no reply; where [message.data] is
    [undefined] or [null] the TypeError of reading it leaves the handler. *)
Lemma receive_not_addressed srv st ev :
  Server.addressed srv ev = false ->
  Server._receive h srv st ev
    = (st, if nullish (data ev) then [Server.Escaped false (type_error h)] else []).
Proof.
  unfold Server.addressed, Server._receive, Server.try_body. intros H.
  destruct (get (data ev) "interfaceName") as [name|] eqn:G.
  - rewrite H. simpl.
    destruct (nullish (data ev)) eqn:N; [|reflexivity].
    apply (get_nullish _ "interfaceName") in N. congruence.
  - pose proof G as N. apply get_nullish in N. rewrite N.
    unfold Server.reply_error, Server._replyTo.
    assert (I : get (data ev) "id" = None) by (apply get_nullish; exact N).
    rewrite I. destruct (Server.error_payload (type_error h)); reflexivity.
Qed.

(** C8: a message whose interfaceName is not the dispatcher's own name gets
    no reply, and the instance (the service state and the trace of the
    methods applied) is as it was. *)
Theorem foreign_interface_untouched srv st ev (name : value) :
  get (data ev) "interfaceName" = Some name ->
  is_str name (Server._name srv) = false ->
  Server._receive h srv st ev = (st, []).
Proof.
  intros G N.
  rewrite receive_not_addressed.
  - destruct (nullish (data ev)) eqn:E; [|reflexivity].
    apply (get_nullish _ "interfaceName") in E. congruence.
  - unfold Server.addressed. rewrite G. exact N.
Qed.

Lemma addressed_get srv ev (k : string) :
  Server.addressed srv ev = true ->
  get (data ev) k = Some (prop (data ev) k)
  /\ get (data ev) "interfaceName" = Some (prop (data ev) "interfaceName")
  /\ is_str (prop (data ev) "interfaceName") (Server._name srv) = true.
Proof.
  unfold Server.addressed. intros H.
  destruct (get (data ev) "interfaceName") as [name|] eqn:G; [|discriminate].
  split; [apply (get_some_any _ _ _ _ G)|].
  unfold prop. rewrite G. split; [reflexivity|exact H].
Qed.

(** C4: a message for this dispatcher whose command is not on the whitelist
    gets exactly one reply, the error reply with the message
    ['Unknown command'], sent to the source of the message with its origin
    as target origin and carrying its id; the instance is as it was, so no
    method was applied. *)
Theorem unknown_command_one_error_reply srv st ev :
  Server.addressed srv ev = true ->
  Server.includes (Server._rpcInterface srv) (prop (data ev) "command") = false ->
  cloneable h (data ev) = true ->
  exists id,
    structured_clone h (prop (data ev) "id") = Some id
    /\ Server._receive h srv st ev
       = (st, [Server.Posted false (Server.unknown_command_reply h srv ev id)]).
Proof.
  intros A W C.
  destruct (clone_id_of_data h _ C) as [id Hid]. exists id. split; [exact Hid|].
  destruct (addressed_get srv ev "id" A) as (Gid & Gn & Hn).
  unfold Server._receive, Server.try_body. rewrite Gn, Hn, W. simpl.
  unfold Server.reply_error, Server.unknown_command. simpl.
  unfold Server._replyTo. rewrite Gid. unfold postMessage. simpl.
  rewrite Hid. reflexivity.
Qed.

Lemma includes_string (whitelist : list string) (command : value) :
  Server.includes whitelist command = true ->
  exists key, command = VStr key /\ In key whitelist.
Proof.
  unfold Server.includes. rewrite List.existsb_exists.
  intros [key [I E]]. destruct command; simpl in E; try discriminate.
  apply String.eqb_eq in E. subst. exists key. split; [reflexivity|exact I].
Qed.

Lemma includes_In (whitelist : list string) (key : string) :
  In key whitelist -> Server.includes whitelist (VStr key) = true.
Proof.
  intros I. unfold Server.includes. apply List.existsb_exists.
  exists key. split; [exact I|]. simpl. apply String.eqb_refl.
Qed.

(** What a turn of the handler adds to the trace: nothing, or the one
    application line 204 makes. *)
Lemma receive_calls srv st ev :
  Server.calls (fst (Server._receive h srv st ev)) = Server.calls st
  \/ exists key args,
       Server.addressed srv ev = true
       /\ prop (data ev) "command" = VStr key
       /\ In key (Server._rpcInterface srv)
       /\ Server.call_args h srv ev (VStr key) = Some args
       /\ Server.calls (fst (Server._receive h srv st ev))
          = Server.calls st ++ [(key, args)].
Proof.
  unfold Server._receive, Server.try_body.
  destruct (get (data ev) "interfaceName") as [name|] eqn:G; [|left; reflexivity].
  destruct (is_str name (Server._name srv)) eqn:N; simpl; [|left; reflexivity].
  destruct (Server.includes _ _) eqn:W; simpl; [|left; reflexivity].
  destruct (includes_string _ _ W) as [key [Ek Ik]]. rewrite Ek. simpl.
  destruct (Server.call_args h srv ev (VStr key)) as [args|] eqn:C; [|left; reflexivity].
  destruct (Server.lookup_member srv key) as [m|]; [|left; reflexivity].
  right. exists key, args.
  assert (A : Server.addressed srv ev = true)
    by (unfold Server.addressed; rewrite G; exact N).
  repeat split; try assumption.
  destruct (m (Server.service st) args) as [s' [v|e|[v|e|]]]; reflexivity.
Qed.

(** An application the handler makes for a whitelisted command. *)
Lemma receive_applies srv st ev (key : string) (args : list value)
    (m : Server.method S) :
  Server.addressed srv ev = true ->
  prop (data ev) "command" = VStr key ->
  In key (Server._rpcInterface srv) ->
  Server.call_args h srv ev (VStr key) = Some args ->
  Server.lookup_member srv key = Some m ->
  Server.calls (fst (Server._receive h srv st ev)) = Server.calls st ++ [(key, args)]
  /\ Server.service (fst (Server._receive h srv st ev)) = fst (m (Server.service st) args).
Proof.
  intros A Ek Ik C L.
  destruct (addressed_get srv ev "id" A) as (_ & Gn & Hn).
  unfold Server._receive, Server.try_body. rewrite Gn, Hn, Ek. simpl.
  rewrite (includes_In _ _ Ik). simpl. rewrite C, L.
  destruct (m (Server.service st) args) as [s' [v|e|[v|e|]]]; split; reflexivity.
Qed.

(** C6, as amended: with access control, an application the handler makes
    for a command other than the handshake has as arguments the identity
    object [{callingWindow, callingOrigin}] of the message followed by the
    message's own arguments, and an application of the handshake method has
    the message's own arguments only; each application of a whitelisted
    command is made with these arguments. *)
Theorem access_control_injects_identity srv st ev :
  Server.useAccessControl srv = true ->
  (Server.calls (fst (Server._receive h srv st ev)) = Server.calls st
   \/ exists key args own,
        Server.calls (fst (Server._receive h srv st ev))
          = Server.calls st ++ [(key, args)]
        /\ prop (data ev) "command" = VStr key
        /\ (if String.eqb key "getRpcInterface"
            then Server.apply_args h (Server.message_args ev) = Some own /\ args = own
            else iterate (Server.message_args ev) = Some own
                 /\ args = Server.identity ev :: own))
  /\ (forall key own m,
        Server.addressed srv ev = true ->
        prop (data ev) "command" = VStr key ->
        In key (Server._rpcInterface srv) ->
        Server.lookup_member srv key = Some m ->
        (if String.eqb key "getRpcInterface"
         then Server.apply_args h (Server.message_args ev) = Some own
         else iterate (Server.message_args ev) = Some own) ->
        Server.calls (fst (Server._receive h srv st ev))
          = Server.calls st
            ++ [(key, if String.eqb key "getRpcInterface" then own
                      else Server.identity ev :: own)]).
Proof.
  intros AC. split.
  - destruct (receive_calls srv st ev) as [E|(key & args & A & Ek & Ik & C & E)];
      [left; exact E|right].
    unfold Server.call_args in C. rewrite AC in C. simpl in C.
    destruct (String.eqb key "getRpcInterface") eqn:K; simpl in C.
    + exists key, args, args. rewrite K. repeat split; assumption.
    + destruct (iterate (Server.message_args ev)) as [own|] eqn:I; [|discriminate].
      injection C as C. exists key, args, own. rewrite K. repeat split; auto.
  - intros key own m A Ek Ik L Hown.
    apply (receive_applies srv st ev key _ m A Ek Ik); [|exact L].
    unfold Server.call_args. rewrite AC. simpl.
    destruct (String.eqb key "getRpcInterface"); simpl.
    + exact Hown.
    + rewrite Hown. reflexivity.
Qed.

End DispatcherFacts.

(** ** The proxy *)

Section ProxyFacts.

Variable h : Host.

Implicit Types (c : Client.Client) (ev : event) (ps : list Client.promise).

Lemma discards_get c ev :
  Client.discards c ev = Some false ->
  forall k, get (data ev) k = Some (prop (data ev) k).
Proof.
  unfold Client.discards. intros H k.
  destruct (negb (Nat.eqb (source ev) (Client._targetWindow c))); [discriminate|].
  destruct (get (data ev) "status") eqn:G; [|discriminate].
  apply (get_some_any _ _ _ _ G).
Qed.

(** The state after a reply, in one equation. *)
Lemma receive_state c ev :
  fst (Client._receive h c ev)
  = match Client.key_of c ev with
    | Some n =>
        match Client._waiting c !! n with
        | Some p =>
            Client.with_promises
              (Client.with_waiting c (delete n (Client._waiting c)))
              (match Client.verdict ev with
               | Some s => Client.settle (Client.promises c) p s
               | None => Client.promises c
               end)
        | None => c
        end
    | None => c
    end.
Proof.
  unfold Client._receive, Client.key_of.
  destruct (Client.discards c ev) as [[|]|] eqn:D; try reflexivity.
  rewrite !(discards_get c ev D).
  unfold Client.waiting_get.
  destruct (prop (data ev) "id") eqn:I; try reflexivity.
  destruct (Client._waiting c !! n) as [p|]; [|reflexivity].
  unfold Client.answer, Client.verdict.
  destruct (is_str (prop (data ev) "status") "OK"); [reflexivity|].
  destruct (is_str (prop (data ev) "status") "error"); [|reflexivity].
  destruct (get (prop (data ev) "result") "message") as [m|]; [|reflexivity].
  destruct (get (prop (data ev) "result") "stack") as [s|]; [|reflexivity].
  destruct (get (prop (data ev) "result") "code") as [k|]; [|reflexivity].
  destruct (new_error_message m); reflexivity.
Qed.

(** A reply without entry is logged and changes nothing. *)
Lemma receive_unknown c ev :
  Client.discards c ev = Some false ->
  Client.waiting_get (Client._waiting c) (prop (data ev) "id") = None ->
  Client._receive h c ev = (c, [Client.Logged "Unknown reply" (data ev)]).
Proof.
  intros D W. unfold Client._receive. rewrite D.
  rewrite !(discards_get c ev D). rewrite W. reflexivity.
Qed.

Lemma discards_static c c' ev :
  Client._targetWindow c' = Client._targetWindow c ->
  Client.interfaceName c' = Client.interfaceName c ->
  Client._targetOrigin c' = Client._targetOrigin c ->
  Client.discards c' ev = Client.discards c ev.
Proof. unfold Client.discards. intros -> -> ->. reflexivity. Qed.

Lemma receive_static c ev :
  Client._targetWindow (fst (Client._receive h c ev)) = Client._targetWindow c
  /\ Client.interfaceName (fst (Client._receive h c ev)) = Client.interfaceName c
  /\ Client._targetOrigin (fst (Client._receive h c ev)) = Client._targetOrigin c.
Proof.
  rewrite receive_state.
  destruct (Client.key_of c ev) as [n|]; [|auto].
  destruct (Client._waiting c !! n); auto.
Qed.

Lemma key_of_static c ev ev' :
  Client.key_of (fst (Client._receive h c ev')) ev = Client.key_of c ev.
Proof.
  unfold Client.key_of.
  destruct (receive_static c ev') as (A & B & C).
  rewrite (discards_static c _ ev A B C). reflexivity.
Qed.

Lemma settle_commute ps (p q : nat) (s t : Client.promise) :
  p <> q ->
  Client.settle (Client.settle ps p s) q t = Client.settle (Client.settle ps q t) p s.
Proof.
  intros N. unfold Client.settle.
  destruct (ps !! p) as [[| |]|] eqn:P; destruct (ps !! q) as [[| |]|] eqn:Q;
    rewrite ?P, ?Q, ?list_lookup_insert_ne, ?P, ?Q by congruence;
    try reflexivity.
  apply list_insert_insert_ne. congruence.
Qed.

Lemma settle_other ps (p q : nat) (s : Client.promise) :
  q <> p -> Client.settle ps p s !! q = ps !! q.
Proof.
  intros N. unfold Client.settle.
  destruct (ps !! p) as [[| |]|]; try reflexivity.
  apply list_lookup_insert_ne. congruence.
Qed.

Lemma settle_pending ps (p : nat) (s : Client.promise) :
  ps !! p = Some Client.Pending -> Client.settle ps p s !! p = Some s.
Proof.
  intros P. unfold Client.settle. rewrite P.
  apply list_lookup_insert_eq. apply lookup_lt_Some in P. exact P.
Qed.

Lemma distinct_snd (l : list (Z * nat)) (n m : Z) (p : nat) :
  Client.distinct (map snd l) = true -> In (n, p) l -> In (m, p) l -> n = m.
Proof.
  induction l as [|[k q] l IH]; simpl; [contradiction|].
  intros D. apply andb_prop in D. destruct D as [F D].
  assert (X : forall j, In (j, q) l -> False).
  { intros j Hj. apply negb_true_iff in F.
    assert (E : existsb (Nat.eqb q) (map snd l) = true); [|congruence].
    apply List.existsb_exists. exists q. split; [|apply Nat.eqb_refl].
    change q with (snd (j, q)). apply List.in_map. exact Hj. }
  intros [A|A] [B|B].
  - congruence.
  - injection A as -> ->. destruct (X _ B).
  - injection B as -> ->. destruct (X _ A).
  - apply IH; assumption.
Qed.

Lemma wf_one_promise_each c : Client.wf c = true -> Client.one_promise_each c.
Proof.
  unfold Client.wf. intros D n m p Hn Hm.
  apply andb_prop in D. destruct D as [D _].
  apply (distinct_snd _ n m p D); apply list_elem_of_In;
    apply elem_of_map_to_list; assumption.
Qed.

Lemma wf_bounded c : Client.wf c = true -> Client.bounded c.
Proof.
  unfold Client.wf. intros D n p Hn.
  apply andb_prop in D. destruct D as [_ B].
  rewrite List.forallb_forall in B. apply Nat.ltb_lt. apply B.
  change p with (snd (n, p)). apply List.in_map.
  apply list_elem_of_In, elem_of_map_to_list. exact Hn.
Qed.

Lemma receive_waiting_sub c ev (m : Z) (q : nat) :
  Client._waiting (fst (Client._receive h c ev)) !! m = Some q ->
  Client._waiting c !! m = Some q.
Proof.
  rewrite receive_state.
  destruct (Client.key_of c ev) as [n|]; [|auto].
  destruct (Client._waiting c !! n) as [p|] eqn:W; [|auto].
  simpl. intros H. apply lookup_delete_Some in H. apply H.
Qed.

Lemma receive_one_promise_each c ev :
  Client.one_promise_each c ->
  Client.one_promise_each (fst (Client._receive h c ev)).
Proof.
  intros I n m p Hn Hm. apply (I n m p); apply (receive_waiting_sub c ev); assumption.
Qed.

Lemma key_of_id c ev (n : Z) :
  Client.key_of c ev = Some n ->
  Client.discards c ev = Some false /\ prop (data ev) "id" = VNum n.
Proof.
  unfold Client.key_of.
  destruct (Client.discards c ev) as [[|]|]; try discriminate.
  destruct (prop (data ev) "id"); try discriminate.
  intros E. injection E as ->. auto.
Qed.

(** Two replies with different ids may arrive in either order. *)
Lemma receive_commute c (a b : event) :
  Client.one_promise_each c ->
  Client.clash a b = false ->
  fst (Client._receive h (fst (Client._receive h c a)) b)
  = fst (Client._receive h (fst (Client._receive h c b)) a).
Proof.
  intros I C.
  rewrite (receive_state (fst (Client._receive h c a)) b),
          (receive_state (fst (Client._receive h c b)) a).
  rewrite !key_of_static. rewrite (receive_state c a), (receive_state c b).
  destruct (Client.key_of c a) as [n|] eqn:Ka; [|reflexivity].
  destruct (Client.key_of c b) as [m|] eqn:Kb;
    [|destruct (Client._waiting c !! n); reflexivity].
  assert (N : n <> m).
  { apply key_of_id in Ka, Kb. unfold Client.clash in C.
    destruct Ka as [_ Ea], Kb as [_ Eb]. rewrite Ea, Eb in C.
    apply Z.eqb_neq. exact C. }
  destruct (Client._waiting c !! n) as [p|] eqn:Wn;
    destruct (Client._waiting c !! m) as [q|] eqn:Wm; simpl;
    rewrite ?lookup_delete_ne, ?Wn, ?Wm by congruence; simpl; try reflexivity.
  assert (P : p <> q) by (intros ->; apply N; exact (I n m q Wn Wm)).
  unfold Client.with_promises, Client.with_waiting. simpl.
  rewrite (delete_delete _ m n).
  destruct (Client.verdict a), (Client.verdict b); try reflexivity.
  rewrite (settle_commute _ p q) by exact P. reflexivity.
Qed.

Lemma clash_sym (a b : event) : Client.clash a b = Client.clash b a.
Proof.
  unfold Client.clash.
  destruct (prop (data a) "id"), (prop (data b) "id"); try reflexivity.
  apply Z.eqb_sym.
Qed.

Lemma apart_perm (l l' : list event) :
  Permutation l l' -> Client.apart l = true -> Client.apart l' = true.
Proof.
  induction 1 as [|x l l' P IH|x y l|l l' l'' P1 IH1 P2 IH2]; simpl; intros A.
  - reflexivity.
  - apply andb_prop in A. destruct A as [F A].
    apply andb_true_intro. split; [|apply IH; exact A].
    rewrite List.forallb_forall in F |- *. intros e He. apply F.
    apply (Permutation_in _ (Permutation_sym P)). exact He.
  - rewrite (clash_sym x y).
    destruct (Client.clash y x); simpl in *; [discriminate|].
    destruct (forallb (fun ev' => negb (Client.clash y ev')) l); simpl in *;
      [|discriminate].
    destruct (forallb (fun ev' => negb (Client.clash x ev')) l); simpl in *;
      [exact A|discriminate].
  - apply IH2, IH1, A.
Qed.

(** The order in which replies with different ids arrive does not matter. *)
Lemma receive_all_perm (l l' : list event) :
  Permutation l l' ->
  forall c, Client.one_promise_each c -> Client.apart l = true ->
            Client.receive_all h c l = Client.receive_all h c l'.
Proof.
  induction 1 as [|x l l' P IH|x y l|l l' l'' P1 IH1 P2 IH2]; intros c I A.
  - reflexivity.
  - simpl in A. apply andb_prop in A. destruct A as [_ A].
    unfold Client.receive_all. simpl.
    apply (IH _ (receive_one_promise_each c x I) A).
  - simpl in A. apply andb_prop in A. destruct A as [F _].
    apply andb_prop in F. destruct F as [F _]. apply negb_true_iff in F.
    unfold Client.receive_all. simpl.
    rewrite (receive_commute c y x I F). reflexivity.
  - rewrite (IH1 c I A). apply (IH2 c I). apply (apart_perm _ _ P1 A).
Qed.

Lemma distinct_of_inj (l : list (Z * nat)) :
  NoDup l ->
  (forall n m p, In (n, p) l -> In (m, p) l -> n = m) ->
  Client.distinct (map snd l) = true.
Proof.
  induction l as [|[k q] l IH]; intros N I; [reflexivity|]. simpl.
  inversion N as [|x r Hx Hr]; subst.
  apply andb_true_intro. split.
  - apply negb_true_iff. apply not_true_is_false. intros X.
    apply List.existsb_exists in X. destruct X as [y [Hy E]].
    apply Nat.eqb_eq in E. subst y. apply List.in_map_iff in Hy.
    destruct Hy as [[j q'] [Eq Hj]]. simpl in Eq. subst q'.
    assert (j = k) by (apply (I j k q); [right; exact Hj|left; reflexivity]).
    subst j. apply Hx. apply list_elem_of_In. exact Hj.
  - apply IH; [exact Hr|]. intros n m p Hn Hm.
    apply (I n m p); right; assumption.
Qed.

Lemma invariant_wf c :
  Client.one_promise_each c -> Client.bounded c -> Client.wf c = true.
Proof.
  intros I B. unfold Client.wf. apply andb_true_intro. split.
  - apply distinct_of_inj.
    + apply NoDup_map_to_list.
    + intros n m p Hn Hm. apply list_elem_of_In, elem_of_map_to_list in Hn, Hm.
      apply (I n m p); assumption.
  - apply List.forallb_forall. intros p Hp. apply List.in_map_iff in Hp.
    destruct Hp as [[n q] [E Hq]]. simpl in E. subst q.
    apply Nat.ltb_lt. apply (B n).
    apply elem_of_map_to_list, list_elem_of_In. exact Hq.
Qed.

Lemma settle_length ps (p : nat) (s : Client.promise) :
  length (Client.settle ps p s) = length ps.
Proof.
  unfold Client.settle. destruct (ps !! p) as [[| |]|]; try reflexivity.
  apply length_insert.
Qed.

Lemma receive_length c ev :
  length (Client.promises (fst (Client._receive h c ev))) = length (Client.promises c).
Proof.
  rewrite receive_state.
  destruct (Client.key_of c ev) as [n|]; [|reflexivity].
  destruct (Client._waiting c !! n); [|reflexivity]. simpl.
  destruct (Client.verdict ev); [apply settle_length|reflexivity].
Qed.

Lemma invoke_state c (command : value) (args : list value) (id : Z) :
  let c' := fst (fst (Client._invoke h c command args id)) in
  Client._waiting c' = <[id := length (Client.promises c)]> (Client._waiting c)
  /\ length (Client.promises c') = S (length (Client.promises c)).
Proof.
  unfold Client._invoke. simpl.
  destruct (postMessage h _ _ _); simpl; rewrite length_app; simpl;
    split; (reflexivity || lia).
Qed.

(** The entries of a proxy hold different promises, whatever calls and
    messages it has seen since it was built. *)
Lemma perform_invariant c (a : Client.action) :
  Client.one_promise_each c /\ Client.bounded c ->
  Client.one_promise_each (Client.perform h c a)
  /\ Client.bounded (Client.perform h c a).
Proof.
  intros [I B]. destruct a as [command args id|ev]; simpl.
  - destruct (invoke_state c command args id) as [W L].
    split.
    + intros n m p. rewrite W. intros Hn Hm.
      apply lookup_insert_Some in Hn, Hm.
      destruct Hn as [[En Ep]|[Nn Hn]], Hm as [[Em Ep']|[Nm Hm]]; subst.
      * reflexivity.
      * apply B in Hm. lia.
      * apply B in Hn. lia.
      * apply (I n m p); assumption.
    + intros n p. rewrite W, L. intros Hn.
      apply lookup_insert_Some in Hn.
      destruct Hn as [[En Ep]|[Nn Hn]]; [lia|]. apply B in Hn. lia.
  - split; [apply receive_one_promise_each; exact I|].
    intros n p Hn. rewrite receive_length.
    apply (B n). apply (receive_waiting_sub c ev). exact Hn.
Qed.

Lemma reachable_wf (targetWindow : window) (targetOrigin interfaceName : string)
    (functionNames : value) c (actions : list Client.action) :
  Client._Client targetWindow targetOrigin interfaceName functionNames = Some c ->
  Client.wf (foldl (Client.perform h) c actions) = true.
Proof.
  intros E.
  assert (Inv : Client.one_promise_each c /\ Client.bounded c).
  { unfold Client._Client in E.
    destruct (iterate functionNames); [|discriminate].
    destruct (sequence _); [|discriminate].
    injection E as <-. split; intros n; intros; simpl in *;
      rewrite lookup_empty in *; discriminate. }
  clear E. revert c Inv. induction actions as [|a actions IH]; intros c Inv.
  - apply invariant_wf; apply Inv.
  - simpl. apply IH. apply perform_invariant. exact Inv.
Qed.

Lemma orphan_receive c ev (p : nat) :
  Client.orphan c p ->
  Client.orphan (fst (Client._receive h c ev)) p
  /\ Client.promises (fst (Client._receive h c ev)) !! p = Client.promises c !! p.
Proof.
  intros O. split.
  - intros n Hn. apply (O n). apply (receive_waiting_sub c ev). exact Hn.
  - rewrite receive_state.
    destruct (Client.key_of c ev) as [n|]; [|reflexivity].
    destruct (Client._waiting c !! n) as [q|] eqn:W; [|reflexivity].
    simpl. destruct (Client.verdict ev); [|reflexivity].
    apply settle_other. intros ->. exact (O n W).
Qed.

(** A promise that no entry holds stays as it is, whatever the proxy does
    next. *)
Lemma orphan_perform c (a : Client.action) (p : nat) :
  Client.orphan c p ->
  (p < length (Client.promises c))%nat ->
  Client.orphan (Client.perform h c a) p
  /\ (p < length (Client.promises (Client.perform h c a)))%nat
  /\ Client.promises (Client.perform h c a) !! p = Client.promises c !! p.
Proof.
  intros O L. destruct a as [command args id|ev]; simpl.
  - destruct (invoke_state c command args id) as [W Le].
    split; [|split; [lia|]].
    + intros n. rewrite W. intros Hn. apply lookup_insert_Some in Hn.
      destruct Hn as [[_ E]|[_ Hn]]; [lia|exact (O n Hn)].
    + unfold Client._invoke. simpl.
      destruct (postMessage h _ _ _); simpl; apply lookup_app_l; exact L.
  - destruct (orphan_receive c ev p O) as [O' E].
    split; [exact O'|]. split; [rewrite receive_length; exact L|exact E].
Qed.

Lemma orphan_forever (actions : list Client.action) c (p : nat) :
  Client.orphan c p ->
  (p < length (Client.promises c))%nat ->
  Client.promises (foldl (Client.perform h) c actions) !! p = Client.promises c !! p.
Proof.
  revert c. induction actions as [|a actions IH]; intros c O L; [reflexivity|].
  simpl. destruct (orphan_perform c a p O L) as (O' & L' & E).
  rewrite <- E. apply (IH _ O' L').
Qed.

End ProxyFacts.

(** ** The connector *)

Section ConnectorFacts.

Variable h : Host.

Import Connector.

Implicit Types (s : Connector) (ev : event) (i : input).

Lemma find_timer_spec (id : nat) (ts : list timer) (t : timer) :
  find_timer id ts = Some t -> In t ts /\ timer_id t = id.
Proof.
  unfold find_timer. intros F. apply List.find_some in F.
  destruct F as [I E]. apply Nat.eqb_eq in E. auto.
Qed.

Lemma find_timer_filter (id j : nat) (ts : list timer) :
  id <> j ->
  find_timer id (filter (fun t => timer_id t ≠ j) ts) = find_timer id ts.
Proof.
  intros N. unfold find_timer.
  induction ts as [|t ts IH]; [reflexivity|].
  rewrite filter_cons. destruct (decide (timer_id t ≠ j)) as [D|D]; simpl.
  - rewrite IH. reflexivity.
  - destruct (Nat.eqb (timer_id t) id) eqn:E; [|exact IH].
    apply Nat.eqb_eq in E. exfalso. apply D. congruence.
Qed.

Lemma find_timer_app (id : nat) (ts us : list timer) (t : timer) :
  find_timer id ts = Some t -> find_timer id (ts ++ us) = Some t.
Proof.
  unfold find_timer. induction ts as [|x ts IH]; simpl; [discriminate|].
  destruct (Nat.eqb (timer_id x) id); [auto|exact IH].
Qed.

Lemma filter_two_ids (j : nat) (ts : list timer) :
  (forall t, In t ts -> timer_id t = 0%nat \/ timer_id t = j) ->
  filter (fun t => timer_id t ≠ j) (filter (fun t => timer_id t ≠ 0%nat) ts) = [].
Proof.
  induction ts as [|t ts IH]; intros A; [reflexivity|].
  assert (A' : forall t, In t ts -> timer_id t = 0%nat \/ timer_id t = j)
    by (intros u Hu; apply A; right; exact Hu).
  rewrite filter_cons.
  destruct (decide (timer_id t ≠ 0%nat)) as [D|D]; [|apply IH; exact A'].
  rewrite filter_cons.
  destruct (decide (timer_id t ≠ j)) as [E|E]; [|apply IH; exact A'].
  destruct (A t (or_introl eq_refl)); contradiction.
Qed.

(** A message the listener does not accept changes nothing. *)
Lemma listener_discards s ev :
  discards s ev <> Some false -> fst (interfaceListener h s ev) = s.
Proof.
  unfold interfaceListener.
  destruct (discards s ev) as [[|]|]; simpl; intros N; congruence.
Qed.

Lemma step_static s i :
  targetWindow (step h s i) = targetWindow s
  /\ interfaceName (step h s i) = interfaceName s
  /\ targetOrigin (step h s i) = targetOrigin s.
Proof.
  destruct i as [id f|ev]; simpl.
  - unfold fire. destruct (find_timer id (timers s)) as [t|]; [|auto].
    destruct (job t); simpl; [|auto].
    unfold tryToConnect. simpl. destruct (connected s); simpl; auto.
  - destruct (listening s); [|auto].
    unfold interfaceListener. destruct (discards s ev) as [[|]|]; simpl; auto.
Qed.

Lemma unanswered_static s s' i :
  targetWindow s' = targetWindow s ->
  interfaceName s' = interfaceName s ->
  targetOrigin s' = targetOrigin s ->
  unanswered s' i = unanswered s i.
Proof.
  intros A B C. destruct i; simpl; [reflexivity|].
  unfold discards. rewrite A, B, C. reflexivity.
Qed.

Lemma start_awaiting (w : window) (name origin : string) :
  awaiting (start w name origin).
Proof.
  unfold awaiting, start. simpl. repeat split.
  exists 1%nat. simpl. repeat split; try lia.
  intros t [<-|[<-|[]]]; simpl; auto.
Qed.

(** The timeout callback ends the handshake. *)
Lemma timeout_fires s (failure : option value) :
  awaiting s -> timed_out h (fire h 0%nat failure s).
Proof.
  intros (C & P & L & T & F & j & J & B & A).
  unfold fire. rewrite F. simpl. unfold on_timeout, timed_out. simpl.
  rewrite P, J. simpl. split; [reflexivity|].
  apply filter_two_ids. intros t Ht. destruct (A t Ht) as [E|[E _]]; auto.
Qed.

(** A retry keeps the handshake under way. *)
Lemma retry_fires s (id : nat) (failure : option value) :
  awaiting s -> id <> 0%nat -> awaiting (fire h id failure s).
Proof.
  intros Inv N. pose proof Inv as (C & P & L & T & F & j & J & B & A).
  unfold fire. destruct (find_timer id (timers s)) as [t|] eqn:Ft; [|exact Inv].
  apply find_timer_spec in Ft. destruct Ft as [It Et].
  destruct (A t It) as [E|[E Jt]]; [congruence|].
  rewrite Jt. unfold tryToConnect. simpl. rewrite C. simpl.
  unfold awaiting. simpl. repeat split; try assumption.
  - apply find_timer_app. rewrite find_timer_filter by congruence. exact F.
  - exists (next_timer s). repeat split; try lia.
    intros u Hu. apply in_app_or in Hu. destruct Hu as [Hu|[<-|[]]].
    + apply list_elem_of_In, list_elem_of_filter in Hu. destruct Hu as [Du Iu].
      apply list_elem_of_In in Iu. destruct (A u Iu) as [E0|[Ej _]]; [left; exact E0|].
      congruence.
    + right. simpl. auto.
Qed.

Lemma awaiting_step s i :
  awaiting s -> unanswered s i = true ->
  awaiting (step h s i) \/ timed_out h (step h s i).
Proof.
  intros Inv U. destruct i as [id f|ev]; simpl.
  - destruct (Nat.eq_dec id 0%nat) as [->|N].
    + right. apply timeout_fires. exact Inv.
    + left. apply retry_fires; assumption.
  - left. destruct (listening s); [|exact Inv].
    rewrite listener_discards; [exact Inv|].
    simpl in U. destruct (discards s ev) as [[|]|]; congruence.
Qed.

(** After the timeout nothing is sent, scheduled or settled any more. *)
Lemma timed_out_step s i :
  timed_out h s -> timed_out h (step h s i) /\ sent (step h s i) = sent s.
Proof.
  intros [P T]. destruct i as [id f|ev]; simpl.
  - unfold fire. rewrite T. simpl. split; [split; assumption|reflexivity].
  - destruct (listening s); [|split; [split; assumption|reflexivity]].
    unfold interfaceListener, timed_out.
    destruct (discards s ev) as [[|]|]; simpl; try (split; [split; assumption|reflexivity]).
    rewrite P. simpl.
    destruct (match get (data ev) "result" with
              | Some result => Client._Client (targetWindow s) (targetOrigin s)
                                 (interfaceName s) result
              | None => None
              end); simpl; auto.
Qed.

Lemma timed_out_run (inputs : list input) s :
  timed_out h s -> timed_out h (run h s inputs) /\ sent (run h s inputs) = sent s.
Proof.
  revert s. induction inputs as [|i inputs IH]; intros s T; [auto|].
  unfold run. simpl. destruct (timed_out_step s i T) as [T' E].
  destruct (IH _ T') as [T'' E']. split; [exact T''|].
  unfold run in E'. rewrite E'. exact E.
Qed.

Lemma awaiting_run (inputs : list input) s s0 :
  targetWindow s = targetWindow s0 ->
  interfaceName s = interfaceName s0 ->
  targetOrigin s = targetOrigin s0 ->
  Forall (fun i => unanswered s0 i = true) inputs ->
  awaiting s \/ timed_out h s ->
  awaiting (run h s inputs) \/ timed_out h (run h s inputs).
Proof.
  revert s. induction inputs as [|i inputs IH]; intros s A B C U Inv; [exact Inv|].
  apply Forall_cons in U. destruct U as [Ui U].
  unfold run. simpl.
  destruct (step_static s i) as (A' & B' & C').
  apply IH; try congruence; try assumption.
  destruct Inv as [Inv|T].
  - apply awaiting_step; [exact Inv|].
    rewrite (unanswered_static s0 s i); auto.
  - right. apply (timed_out_step s i T).
Qed.

End ConnectorFacts.

Section ConnectorClaims.

Variable h : Host.

Import Connector.

(** With an ideal clock the timeout callback is the 31st timer to fire, at
    30000 ms, after 30 handshake requests (at 100, 1100, ..., 29100 ms). *)
Lemma ideal_clock_times_out (w : window) (name origin : string) :
  let s := ideal h 31 (start w name origin) in
  clock s = 30000
  /\ promise s = Failed (timeout_error h)
  /\ timers s = []
  /\ length (sent s) = 30%nat
  /\ clock (ideal h 30 (start w name origin)) = 29100
  /\ promise (ideal h 30 (start w name origin)) = Unsettled.
Proof. vm_compute. repeat split. Qed.

(** C3, as amended: the timeout is 30000 ms whatever arguments the call
    has.  As long as no handshake reply is accepted the timeout timer stays
    pending, due at 30000 ms; when it fires, the promise of the connect
    operation is rejected with the error 'Connection timeout' and no timer
    is left; whatever happens afterwards (messages, late replies, timers the
    host might try to fire), no handshake message is sent any more and the
    promise stays rejected. *)
Theorem timeout_rejects_and_stops (w : window) (name : string)
    (origin : option string) (more : list value) (before : list input) :
  Forall (fun i => unanswered (Client w name origin more) i = true) before ->
  let s := run h (Client w name origin more) before in
  let s' := step h s (Fire 0%nat None) in
  (promise s = Unsettled -> find_timer 0%nat (timers s) = Some timeout_timer)
  /\ promise s' = Failed (timeout_error h)
  /\ timers s' = []
  /\ (forall after : list input,
        promise (run h s' after) = Failed (timeout_error h)
        /\ timers (run h s' after) = []
        /\ sent (run h s' after) = sent s').
Proof.
  intros U s s'.
  assert (Inv : awaiting s \/ timed_out h s).
  { apply (awaiting_run h before (Client w name origin more)
             (Client w name origin more)); auto.
    left. apply start_awaiting. }
  assert (T : timed_out h s').
  { destruct Inv as [A|T].
    - apply timeout_fires. exact A.
    - apply (timed_out_step h s (Fire 0%nat None) T). }
  split; [|split; [apply T|split; [apply T|]]].
  - intros P. destruct Inv as [A|[X _]]; [apply A|congruence].
  - intros after. destruct (timed_out_run h after s' T) as [[P E] Se]. auto.
Qed.

End ConnectorClaims.

Section ProxyClaims.

Variable h : Host.

Implicit Types (c : Client.Client) (ev : event).

Lemma receive_known c ev (n : Z) (p : nat) :
  Client.discards c ev = Some false ->
  prop (data ev) "id" = VNum n ->
  Client._waiting c !! n = Some p ->
  Client._receive h c ev
  = Client.answer h (Client.with_waiting c (delete n (Client._waiting c))) p
      (prop (data ev) "status") (prop (data ev) "result").
Proof.
  intros D I W. unfold Client._receive. rewrite D.
  rewrite !(discards_get c ev D). rewrite I. simpl. rewrite W. reflexivity.
Qed.

Lemma key_of_known c ev (n : Z) :
  Client.discards c ev = Some false ->
  prop (data ev) "id" = VNum n ->
  Client.key_of c ev = Some n.
Proof. intros D I. unfold Client.key_of. rewrite D, I. reflexivity. Qed.


(** C9: a reply that passes the filter and has an entry, with a status that
    is neither 'OK' nor 'error', removes the entry and does nothing else;
    whatever the proxy does afterwards (calls, replies), the promise of that
    call stays as it was. *)
Theorem other_status_orphans_call c ev (n : Z) (p : nat) :
  Client.wf c = true ->
  Client.discards c ev = Some false ->
  prop (data ev) "id" = VNum n ->
  Client._waiting c !! n = Some p ->
  is_str (prop (data ev) "status") "OK" = false ->
  is_str (prop (data ev) "status") "error" = false ->
  truthy (prop (data ev) "status") = true
  /\ Client._receive h c ev
     = (Client.with_waiting c (delete n (Client._waiting c)), [])
  /\ forall later : list Client.action,
       Client.promises
         (foldl (Client.perform h) (fst (Client._receive h c ev)) later) !! p
       = Client.promises c !! p.
Proof.
  intros WF D I W OK Er.
  assert (R : Client._receive h c ev
              = (Client.with_waiting c (delete n (Client._waiting c)), [])).
  { rewrite (receive_known c ev n p D I W). unfold Client.answer.
    rewrite OK, Er. reflexivity. }
  split; [|split; [exact R|]].
  - unfold Client.discards in D.
    destruct (negb (Nat.eqb (source ev) (Client._targetWindow c))); [discriminate|].
    unfold prop. destruct (get (data ev) "status") as [st|]; [|discriminate].
    destruct (get (data ev) "interfaceName"); [|discriminate].
    destruct (truthy st); [reflexivity|]. simpl in D. discriminate.
  - intros later. rewrite R. simpl.
    rewrite orphan_forever; [reflexivity| |].
    + intros m Hm. simpl in Hm. apply lookup_delete_Some in Hm.
      destruct Hm as [N Hm]. apply N.
      symmetry. apply (wf_one_promise_each c WF m n p Hm W).
    + simpl. apply (wf_bounded c WF n p W).
Qed.

(** C5: with a target origin other than the wildcard, a message from
    another origin leaves the proxy as it was (the table of pending calls
    and every promise), and leaves the connector as it was; nothing is
    logged, and nothing is thrown when the message carries data. *)
Theorem foreign_origin_discarded (pinned : string) ev :
  pinned <> "*" ->
  origin ev <> pinned ->
  (forall c, Client._targetOrigin c = pinned ->
     fst (Client._receive h c ev) = c
     /\ (nullish (data ev) = false -> Client._receive h c ev = (c, [])))
  /\ (forall s, Connector.targetOrigin s = pinned ->
     Connector.step h s (Connector.Message ev) = s
     /\ (nullish (data ev) = false -> Connector.interfaceListener h s ev = (s, None))).
Proof.
  intros W O.
  assert (E1 : String.eqb pinned "*" = false) by (apply String.eqb_neq; exact W).
  assert (E2 : String.eqb (origin ev) pinned = false) by (apply String.eqb_neq; exact O).
  split.
  - intros c T.
    assert (D : Client.discards c ev = Some true
                \/ (Client.discards c ev = None /\ nullish (data ev) = true)).
    { unfold Client.discards. rewrite T, E1, E2. simpl.
      destruct (negb (Nat.eqb (source ev) (Client._targetWindow c))); [auto|].
      destruct (get (data ev) "status") eqn:G.
      - rewrite (get_some_any _ _ "interfaceName" _ G).
        left. rewrite !orb_true_r. reflexivity.
      - right. split; [reflexivity|]. apply get_nullish in G. exact G. }
    unfold Client._receive.
    destruct D as [D|[D N]]; rewrite D; simpl; split; auto. congruence.
  - intros s T.
    assert (D : Connector.discards s ev = Some true
                \/ (Connector.discards s ev = None /\ nullish (data ev) = true)).
    { unfold Connector.discards. rewrite T, E1, E2. simpl.
      destruct (negb (Nat.eqb (source ev) (Connector.targetWindow s))); [auto|].
      destruct (get (data ev) "status") eqn:G.
      - rewrite (get_some_any _ _ "interfaceName" _ G).
        left. rewrite !orb_true_r. reflexivity.
      - right. split; [reflexivity|]. apply get_nullish in G. exact G. }
    simpl. unfold Connector.interfaceListener.
    destruct D as [D|[D N]]; rewrite D; simpl;
      (split; [destruct (Connector.listening s); reflexivity|]); auto. congruence.
Qed.

End ProxyClaims.

(** ** The listeners *)

Section PageFacts.

Variable h : Host.
Variable S : Type.

Import Page.

Lemma filter_fresh (f : nat) (l : list nat) :
  Forall (fun g => g <> f) l -> filter (fun g => g ≠ f) l = l.
Proof.
  induction 1 as [|g l N _ IH]; [reflexivity|].
  rewrite filter_cons. destruct (decide (g ≠ f)); [|contradiction].
  rewrite IH. reflexivity.
Qed.

Lemma known_fresh (s : Self) :
  known s = true -> Forall (fun g => g <> functions s) (listeners s).
Proof.
  unfold known. rewrite List.forallb_forall, List.Forall_forall.
  intros K g Hg. specialize (K g Hg). apply Nat.ltb_lt in K. lia.
Qed.

Lemma foldl_agree {A B} (F G : A -> B -> A) (l : list B) (a : A) :
  Forall (fun x => forall a, F a x = G a x) l -> foldl F a l = foldl G a l.
Proof.
  intros H. revert a. induction H as [|x l Hx _ IH]; intros a; [reflexivity|].
  simpl. rewrite Hx. apply IH.
Qed.

Lemma foldl_skip {A B} (F : A -> B -> A) (l : list B) (a : A) :
  Forall (fun x => forall a, F a x = a) l -> foldl F a l = a.
Proof.
  intros H. revert a. induction H as [|x l Hx _ IH]; intros a; [reflexivity|].
  simpl. rewrite Hx. apply IH.
Qed.

(** A message event on a page whose dispatcher was just constructed is one
    run of [_receive]. *)
Lemma constructed_dispatch (srv : Server.Server S) (s : Self)
    (st : Server.instance S) (ev : event) :
  known s = true ->
  dispatchEvent h srv (constructor s st) ev = Server._receive h srv st ev.
Proof.
  intros K. pose proof (known_fresh _ K) as F.
  unfold dispatchEvent, constructor. simpl. unfold addEventListener. simpl.
  assert (X : existsb (Nat.eqb (functions s)) (listeners s) = false).
  { apply not_true_is_false. intros X. apply List.existsb_exists in X.
    destruct X as [g [Hg E]]. apply Nat.eqb_eq in E.
    rewrite List.Forall_forall in F. apply (F g Hg). congruence. }
  rewrite X. simpl. rewrite foldl_app. rewrite (foldl_skip _ (listeners s)).
  - simpl. rewrite Nat.eqb_refl. simpl.
    destruct (Server._receive h srv st ev). reflexivity.
  - revert F. apply List.Forall_impl. intros g N a. simpl.
    destruct (Nat.eqb g (functions s)) eqn:E; [|reflexivity].
    apply Nat.eqb_eq in E. contradiction.
Qed.

(** C10: [close()] removes no listener, the function object it passes
    being a new one; a message event after [close()] is handled as it was
    before, and for a dispatcher just constructed that is one run of
    [_receive], with its replies. *)
Theorem close_does_not_unsubscribe (srv : Server.Server S) (pg : page S) (ev : event) :
  known (self pg) = true ->
  listeners (self (close pg)) = listeners (self pg)
  /\ dispatchEvent h srv (close pg) ev = dispatchEvent h srv pg ev
  /\ (forall (s : Self) (st : Server.instance S),
        known s = true ->
        pg = constructor s st ->
        dispatchEvent h srv (close pg) ev = Server._receive h srv st ev).
Proof.
  intros K. pose proof (known_fresh _ K) as F.
  assert (L : listeners (self (close pg)) = listeners (self pg)).
  { unfold close. simpl. apply filter_fresh. exact F. }
  assert (D : dispatchEvent h srv (close pg) ev = dispatchEvent h srv pg ev).
  { unfold dispatchEvent. rewrite L. unfold close. simpl.
    apply foldl_agree. revert F. apply List.Forall_impl. intros g N a. simpl.
    destruct (Nat.eqb g (functions (self pg))) eqn:E; [|reflexivity].
    apply Nat.eqb_eq in E. contradiction. }
  split; [exact L|split; [exact D|]].
  intros s st Ks E. rewrite D. subst pg. apply constructed_dispatch. exact Ks.
Qed.

(** The proxy's [close()], which passes the function object that was
    registered, does remove its listener. *)
Lemma proxy_close_unsubscribes (s : Self) :
  known s = true ->
  listeners (proxy_self (proxy_close (proxy_constructor s))) = listeners s.
Proof.
  intros K. pose proof (known_fresh _ K) as F.
  unfold proxy_close, proxy_constructor. simpl. unfold addEventListener. simpl.
  assert (X : existsb (Nat.eqb (functions s)) (listeners s) = false).
  { apply not_true_is_false. intros X. apply List.existsb_exists in X.
    destruct X as [g [Hg E]]. apply Nat.eqb_eq in E.
    rewrite List.Forall_forall in F. apply (F g Hg). congruence. }
  rewrite X. simpl. rewrite filter_app, filter_fresh by exact F.
  rewrite filter_cons. destruct (decide (functions s ≠ functions s)); [contradiction|].
  rewrite filter_nil. apply app_nil_r.
Qed.

End PageFacts.

(** ** A call through the channel *)

Section LinkFacts.

Variable h : Host.
Variable S : Type.
Variable origin_of : window -> string.
Variable client_window server_window : window.

Implicit Types (c : Client.Client) (srv : Server.Server S)
  (st : Server.instance S) (ev : event).

(** What the handler does for a whitelisted command, by the result of the
    method. *)
Lemma receive_whitelisted srv st ev (key : string) (args : list value)
    (m : Server.method S) :
  Server.addressed srv ev = true ->
  prop (data ev) "command" = VStr key ->
  In key (Server._rpcInterface srv) ->
  Server.call_args h srv ev (VStr key) = Some args ->
  Server.lookup_member srv key = Some m ->
  Server._receive h srv st ev
  = ({| Server.service := fst (m (Server.service st) args);
        Server.calls := Server.calls st ++ [(key, args)] |},
     match snd (m (Server.service st) args) with
     | Server.Return v => Server.reply_ok h srv false ev v
     | Server.Throw e => Server.reply_error h srv false ev e
     | Server.Async (Server.Fulfil v) => Server.reply_ok h srv true ev v
     | Server.Async (Server.RejectWith e) => Server.reply_error h srv true ev e
     | Server.Async Server.Never => []
     end).
Proof.
  intros A Ek Ik C L.
  destruct (addressed_get S srv ev "id" A) as (_ & Gn & Hn).
  unfold Server._receive, Server.try_body. rewrite Gn, Hn, Ek. simpl.
  rewrite (includes_In _ _ Ik). simpl. rewrite C, L.
  destruct (m (Server.service st) args) as [s' [v|e|[v|e|]]]; reflexivity.
Qed.

Lemma replyTo_clone srv ev (status : string) (result result' : value) (n : Z) :
  get (data ev) "id" = Some (VNum n) ->
  structured_clone h result = Some result' ->
  Server._replyTo h srv ev status result
  = inr {| to := source ev;
           message := VObj [("status", VStr status); ("result", result');
                            ("interfaceName", VStr (Server._name srv));
                            ("id", VNum n)];
           target_origin := origin ev |}.
Proof.
  intros G C. unfold Server._replyTo, postMessage. rewrite G. simpl.
  rewrite C. reflexivity.
Qed.

(** A call whose arguments can be cloned posts the request with their
    clones. *)
Lemma invoke_cloneable c (name : string) (args args' : list value) (id : Z) :
  sequence (map (structured_clone h) args) = Some args' ->
  Client._invoke h c (VStr name) args id
  = (Client.with_promises
       (Client.with_waiting c (<[id := length (Client.promises c)]> (Client._waiting c)))
       (Client.promises c ++ [Client.Pending]),
     length (Client.promises c),
     [Client.Posted
        {| to := Client._targetWindow c;
           message := VObj [("command", VStr name);
                            ("interfaceName", VStr (Client.interfaceName c));
                            ("args", VArr args'); ("id", VNum id)];
           target_origin := "*" |}]).
Proof.
  intros P. unfold Client._invoke, postMessage. simpl. rewrite P. reflexivity.
Qed.

Lemma connected_parts c srv :
  Link.connected origin_of server_window c srv = true ->
  Nat.eqb (Client._targetWindow c) server_window = true
  /\ Client.interfaceName c = Server._name srv
  /\ (String.eqb (Client._targetOrigin c) "*"
      || String.eqb (Client._targetOrigin c) (origin_of server_window)) = true.
Proof.
  unfold Link.connected. intros H.
  apply andb_prop in H. destruct H as [H O].
  apply andb_prop in H. destruct H as [W N].
  apply String.eqb_eq in N. auto.
Qed.

(** The request reaches the dispatcher, and its replies reach the proxy. *)
Lemma call_dispatches c srv st (name : string) (args args' : list value) (id : Z) :
  Link.connected origin_of server_window c srv = true ->
  Client.stub_command (Client.stubs c) name = Some (VStr name) ->
  sequence (map (structured_clone h) args) = Some args' ->
  Link.call h origin_of client_window server_window c srv st name args id
  = Some (foldl (Link.client_turn h origin_of client_window server_window)
            (Link.calling c id)
            (snd (Server._receive h srv st
                    (Link.request origin_of client_window c name args' id))),
          fst (Server._receive h srv st
                 (Link.request origin_of client_window c name args' id)),
          length (Client.promises c)).
Proof.
  intros Co St P. destruct (connected_parts c srv Co) as (W & _ & _).
  unfold Link.call, Client.stub. rewrite St.
  rewrite (invoke_cloneable c name args args' id P). simpl. rewrite W.
  unfold deliver, Link.request, Link.request_event. simpl.
  destruct (Server._receive h srv st _). reflexivity.
Qed.

(** The reply to the call settles its promise. *)
Lemma reply_settles c srv (deferred : bool) (status : string) (result : value)
    (id : Z) (s : Client.promise) :
  Link.connected origin_of server_window c srv = true ->
  Client.verdict (Link.reply origin_of server_window srv status result id) = Some s ->
  Client.promises
    (foldl (Link.client_turn h origin_of client_window server_window)
       (Link.calling c id)
       [Server.Posted deferred
          {| to := client_window;
             message := data (Link.reply origin_of server_window srv status result id);
             target_origin := origin_of client_window |}])
    !! length (Client.promises c)
  = Some s.
Proof.
  intros Co V. destruct (connected_parts c srv Co) as (W & N & O).
  simpl. rewrite Nat.eqb_refl. unfold deliver. simpl.
  rewrite String.eqb_refl, orb_true_r.
  change {| source := server_window; origin := origin_of server_window;
            data := VObj [("status", VStr status); ("result", result);
                          ("interfaceName", VStr (Server._name srv));
                          ("id", VNum id)] |}
    with (Link.reply origin_of server_window srv status result id).
  rewrite receive_state.
  assert (K : Client.key_of (Link.calling c id)
                (Link.reply origin_of server_window srv status result id) = Some id).
  { unfold Client.key_of, Client.discards. simpl.
    apply Nat.eqb_eq in W. rewrite W, Nat.eqb_refl. simpl.
    rewrite N, String.eqb_refl. simpl.
    assert (T : negb (String.eqb status "") = true).
    { unfold Client.verdict in V. simpl in V.
      destruct (String.eqb status "OK") eqn:E1.
      - apply String.eqb_eq in E1. subst. reflexivity.
      - destruct (String.eqb status "error") eqn:E2; [|discriminate].
        apply String.eqb_eq in E2. subst. reflexivity. }
    rewrite T. simpl.
    destruct (String.eqb (Client._targetOrigin c) "*"); simpl; [reflexivity|].
    simpl in O. apply String.eqb_eq in O. rewrite O, String.eqb_refl. reflexivity. }
  rewrite K. simpl. rewrite lookup_insert_eq. simpl. rewrite V.
  apply settle_pending. apply list_lookup_middle. reflexivity.
Qed.

Lemma request_dispatch c srv (name : string) (args : list value) (id : Z) :
  Link.connected origin_of server_window c srv = true ->
  let ev := Link.request origin_of client_window c name args id in
  Server.addressed srv ev = true
  /\ prop (data ev) "command" = VStr name
  /\ get (data ev) "id" = Some (VNum id)
  /\ Server.call_args h srv ev (VStr name)
     = Some (Link.arguments_seen origin_of client_window srv name args).
Proof.
  intros Co ev. destruct (connected_parts c srv Co) as (_ & N & _).
  repeat split.
  - unfold Server.addressed. simpl. rewrite N. apply String.eqb_refl.
  - unfold Server.call_args, Link.arguments_seen, Server.message_args. simpl.
    destruct (Server.useAccessControl srv && negb (String.eqb name "getRpcInterface"));
      reflexivity.
Qed.

Lemma truthy_message (msg : string) : msg <> "" -> negb (String.eqb msg "") = true.
Proof. intros N. apply negb_true_iff. apply String.eqb_neq. exact N. Qed.


End LinkFacts.

(** * The claims on concrete inputs *)

Section Examples.

Import Demo.

(** The handshake with the demo dispatcher builds the demo proxy. *)
Example handshake_builds_proxy :
  Client._Client 2%nat "https://x" "Ledger"
    (VArr (map VStr (Server._rpcInterface dispatcher))) = Some proxy.
Proof. reflexivity. Qed.

(** The scenario of the specification, from the handshake on: the
    connector sends its first request, the dispatcher with the whitelist
    [["ping"]] answers it, the listener builds the proxy, and [ping()]
    through the proxy resolves to ["pong"]. *)
Example scenario_ping :
  let srv := Server._Server Ledger false (Some ["ping"]) in
  let s1 := Connector.step modern
              (Connector.Client 2%nat "Ledger" (Some "https://x") [])
              (Connector.Fire 1%nat None) in
  let answers (st : Server.instance nat) (p : post) :=
    match deliver origin_of 1%nat p with
    | Some ev => Server._receive modern srv st ev
    | None => (st, [])
    end in
  let hears (s : Connector.Connector) (e : Server.effect) :=
    match e with
    | Server.Posted _ p =>
        match deliver origin_of 2%nat p with
        | Some ev => Connector.step modern s (Connector.Message ev)
        | None => s
        end
    | _ => s
    end in
  match Connector.sent s1 with
  | [request] =>
      let '(st, replies) := answers fresh request in
      match Connector.promise (foldl hears s1 replies) with
      | Connector.Resolved c =>
          Client.stubs c = [("ping", VStr "ping");
                            ("getRpcInterface", VStr "getRpcInterface")]
          /\ match Link.call modern origin_of 1%nat 2%nat c srv st "ping" [] 7 with
             | Some (c', st', p) =>
                 Client.promises c' !! p = Some (Client.Fulfilled (VStr "pong"))
                 /\ Server.calls st' = [("getRpcInterface", []); ("ping", [])]
             | None => False
             end
      | _ => False
      end
  | _ => False
  end.
Proof. vm_compute. repeat split. Qed.


(** C3, as stated, fails: a call with 5000 as fourth argument has the
    handshake still under way after 5000 ms without a reply: with an ideal
    clock the promise is unsettled at 5100 ms, the timeout timer is due at
    30000 ms, and the next timer sends another request at 6100 ms. *)
Lemma timeout_counterexample :
  Connector.timeout_as_specified [VNum 5000] = 5000
  /\ let s := Connector.ideal modern 6
                (Connector.Client 2%nat "Ledger" (Some "*") [VNum 5000]) in
     Connector.clock s = 5100
     /\ Connector.promise s = Connector.Unsettled
     /\ Connector.find_timer 0%nat (Connector.timers s) = Some Connector.timeout_timer
     /\ length (Connector.sent s) = 6%nat
     /\ Connector.clock (Connector.ideal modern 1 s) = 6100
     /\ length (Connector.sent (Connector.ideal modern 1 s)) = 7%nat.
Proof. vm_compute. repeat split. Qed.

(** C6, as stated, fails: the injected object has the fields
    [callingWindow] and [callingOrigin], and no field [callingSource]. *)
Lemma identity_counterexample :
  Server.calls (fst (Server._receive modern dispatcher fresh (request "ping" [VNum 1] 5)))
  = [("ping", [Server.identity (request "ping" [VNum 1] 5); VNum 1])]
  /\ Server.identity (request "ping" [VNum 1] 5)
     <> Server.identity_as_specified (request "ping" [VNum 1] 5)
  /\ get (Server.identity (request "ping" [VNum 1] 5)) "callingSource" = Some VUndef
  /\ get (Server.identity (request "ping" [VNum 1] 5)) "callingWindow" = Some (VWin 1%nat).
Proof.
  split; [reflexivity|]. split; [|split; reflexivity].
  intros E. discriminate E.
Qed.

(** C7, as stated, fails: a given whitelist that names the handshake method
    gets the name a second time. *)
Lemma whitelist_counterexample :
  Server._rpcInterface (Server._Server Ledger false (Some ["ping"; "getRpcInterface"]))
  = ["ping"; "getRpcInterface"; "getRpcInterface"]
  /\ Server.whitelist_as_specified Ledger (Some ["ping"; "getRpcInterface"])
     = ["ping"; "getRpcInterface"]
  /\ Server._rpcInterface (Server._Server Ledger false (Some ["ping"; "getRpcInterface"]))
     <> Server.whitelist_as_specified Ledger (Some ["ping"; "getRpcInterface"]).
Proof.
  split; [reflexivity|]. split; [reflexivity|].
  intros E. vm_compute in E. discriminate E.
Qed.



(** [timeout_rejects_and_stops] for a handshake with two retries and a
    message of another interface before the timeout, and a late reply and a
    stale timer after it. *)
Lemma timeout_rejects_and_stops_witness :
  Forall (fun i => Connector.unanswered (Connector.Client 2%nat "Ledger" None []) i = true)
    [Connector.Fire 1%nat None;
     Connector.Message {| source := 2%nat; origin := "https://x";
                          data := VObj [("status", VStr "OK");
                                        ("interfaceName", VStr "Other")] |};
     Connector.Fire 2%nat None]
  /\ let s' :=
       Connector.step modern
         (Connector.run modern (Connector.Client 2%nat "Ledger" None [])
            [Connector.Fire 1%nat None;
             Connector.Message {| source := 2%nat; origin := "https://x";
                                  data := VObj [("status", VStr "OK");
                                                ("interfaceName", VStr "Other")] |};
             Connector.Fire 2%nat None])
         (Connector.Fire 0%nat None) in
     let late := [Connector.Message (reply "https://x" "OK" (VArr [VStr "ping"]) 0);
                  Connector.Fire 3%nat None] in
     Connector.promise s' = Connector.Failed (Connector.timeout_error modern)
     /\ Connector.promise (Connector.run modern s' late)
        = Connector.Failed (Connector.timeout_error modern)
     /\ Connector.sent (Connector.run modern s' late) = Connector.sent s'.
Proof.
  assert (U : Forall (fun i => Connector.unanswered
                                 (Connector.Client 2%nat "Ledger" None []) i = true)
                [Connector.Fire 1%nat None;
                 Connector.Message {| source := 2%nat; origin := "https://x";
                                      data := VObj [("status", VStr "OK");
                                                    ("interfaceName", VStr "Other")] |};
                 Connector.Fire 2%nat None])
    by (repeat constructor).
  split; [exact U|].
  destruct (timeout_rejects_and_stops modern 2%nat "Ledger" None [] _ U)
    as (_ & P & _ & A).
  intros s' late. split; [exact P|].
  destruct (A late) as (P' & _ & S'). split; [exact P'|exact S'].
Defined.

(** [unknown_command_one_error_reply] at a request for [nope]. *)
Lemma unknown_command_one_error_reply_witness :
  Server.addressed dispatcher (request "nope" [VNum 1] 5) = true
  /\ Server.includes (Server._rpcInterface dispatcher)
       (prop (data (request "nope" [VNum 1] 5)) "command") = false
  /\ cloneable modern (data (request "nope" [VNum 1] 5)) = true
  /\ exists id,
       structured_clone modern (prop (data (request "nope" [VNum 1] 5)) "id") = Some id
       /\ Server._receive modern dispatcher fresh (request "nope" [VNum 1] 5)
          = (fresh, [Server.Posted false
                       (Server.unknown_command_reply modern dispatcher
                          (request "nope" [VNum 1] 5) id)]).
Proof.
  repeat (split; [reflexivity|]).
  apply (unknown_command_one_error_reply modern nat dispatcher fresh
           (request "nope" [VNum 1] 5)); reflexivity.
Defined.

(** [foreign_origin_discarded] at the scenario of the specification: the
    proxy pinned to ["https://x"], the call 11 outstanding, and a reply with
    that id from ["https://evil"]. *)
Lemma foreign_origin_discarded_witness :
  "https://x" <> "*"
  /\ origin (reply "https://evil" "OK" (VStr "pong") 11) <> "https://x"
  /\ Client._receive modern busy (reply "https://evil" "OK" (VStr "pong") 11)
     = (busy, [])
  /\ Client._waiting busy !! 11 = Some 0%nat
  /\ Client.promises busy !! 0%nat = Some Client.Pending.
Proof.
  assert (W : "https://x" <> "*") by discriminate.
  assert (O : origin (reply "https://evil" "OK" (VStr "pong") 11) <> "https://x")
    by discriminate.
  split; [exact W|]. split; [exact O|]. split; [|split; reflexivity].
  apply (proj1 (foreign_origin_discarded modern "https://x" _ W O) busy eq_refl).
  reflexivity.
Defined.

(** [access_control_injects_identity] at a request for [ping]. *)
Lemma access_control_injects_identity_witness :
  Server.useAccessControl dispatcher = true
  /\ Server.calls (fst (Server._receive modern dispatcher fresh (request "ping" [VNum 1] 5)))
     = Server.calls fresh
       ++ [("ping", Server.identity (request "ping" [VNum 1] 5) :: [VNum 1])].
Proof.
  split; [reflexivity|].
  apply (proj2 (access_control_injects_identity modern nat dispatcher fresh
                  (request "ping" [VNum 1] 5) eq_refl)
           "ping" [VNum 1] (fun n _ => (S n, Server.Return (VStr "pong"))));
    try reflexivity.
  simpl. auto.
Defined.

(** [foreign_interface_untouched] at a request for another interface. *)
Lemma foreign_interface_untouched_witness :
  get (VObj [("command", VStr "ping"); ("interfaceName", VStr "Vault")]) "interfaceName"
  = Some (VStr "Vault")
  /\ is_str (VStr "Vault") (Server._name dispatcher) = false
  /\ Server._receive modern dispatcher fresh
       {| source := 1%nat; origin := "https://app";
          data := VObj [("command", VStr "ping"); ("interfaceName", VStr "Vault")] |}
     = (fresh, []).
Proof.
  repeat (split; [reflexivity|]).
  apply (foreign_interface_untouched modern nat dispatcher fresh
           {| source := 1%nat; origin := "https://app";
              data := VObj [("command", VStr "ping"); ("interfaceName", VStr "Vault")] |}
           (VStr "Vault")); reflexivity.
Defined.

(** [other_status_orphans_call] at a reply with the status ['pending'] for
    the call 11. *)
Lemma other_status_orphans_call_witness :
  Client.wf busy = true
  /\ Client.discards busy (reply "https://x" "pending" VNull 11) = Some false
  /\ Client._waiting busy !! 11 = Some 0%nat
  /\ Client._receive modern busy (reply "https://x" "pending" VNull 11)
     = (Client.with_waiting busy (delete 11 (Client._waiting busy)), [])
  /\ Client.promises
       (foldl (Client.perform modern)
          (fst (Client._receive modern busy (reply "https://x" "pending" VNull 11)))
          [Client.Receive (reply "https://x" "OK" (VStr "late") 11);
           Client.Invoke (VStr "ping") [] 33;
           Client.Receive (reply "https://x" "OK" (VStr "other") 33)]) !! 0%nat
     = Some Client.Pending.
Proof.
  assert (W : Client.wf busy = true) by (vm_compute; reflexivity).
  split; [exact W|]. split; [reflexivity|]. split; [reflexivity|].
  destruct (other_status_orphans_call modern busy
              (reply "https://x" "pending" VNull 11) 11 0%nat W
              eq_refl eq_refl eq_refl eq_refl eq_refl) as (_ & R & L).
  split; [exact R|]. rewrite L. reflexivity.
Defined.

(** [close_does_not_unsubscribe] at a page where the dispatcher was just
    constructed. *)
Lemma close_does_not_unsubscribe_witness :
  Page.known (Page.self (Page.constructor blank fresh)) = true
  /\ Page.listeners (Page.self (Page.close (Page.constructor blank fresh))) = [0%nat]
  /\ Page.dispatchEvent modern dispatcher (Page.close (Page.constructor blank fresh))
       (request "ping" [VNum 1] 5)
     = Server._receive modern dispatcher fresh (request "ping" [VNum 1] 5).
Proof.
  assert (K : Page.known (Page.self (Page.constructor blank fresh)) = true)
    by reflexivity.
  split; [exact K|].
  destruct (close_does_not_unsubscribe modern nat dispatcher
              (Page.constructor blank fresh) (request "ping" [VNum 1] 5) K)
    as (L & _ & D).
  split; [rewrite L; reflexivity|].
  apply (D blank fresh); reflexivity.
Defined.

End Examples.

(** * Further properties of the connector *)

Section ConnectorMore.

Variable h : Host.

Import Connector.

Implicit Types (s : Connector) (ev : event) (i : input).

Lemma handshake_static s s' :
  targetWindow s' = targetWindow s ->
  interfaceName s' = interfaceName s ->
  targetOrigin s' = targetOrigin s ->
  handshake s' = handshake s.
Proof. unfold handshake. intros -> -> ->. reflexivity. Qed.

(** A step sends nothing, or the handshake request. *)
Lemma sent_step s i :
  sent (step h s i) = sent s \/ sent (step h s i) = sent s ++ [handshake s].
Proof.
  destruct i as [id f|ev]; simpl.
  - unfold fire. destruct (find_timer id (timers s)) as [t|]; [|auto].
    destruct (job t); simpl; [|auto].
    unfold tryToConnect. simpl. destruct (connected s); simpl; [auto|].
    destruct f; simpl; auto.
  - destruct (listening s); [|auto].
    unfold interfaceListener. destruct (discards s ev) as [[|]|]; simpl; auto.
Qed.

Lemma sent_run (inputs : list input) s s0 :
  targetWindow s = targetWindow s0 ->
  interfaceName s = interfaceName s0 ->
  targetOrigin s = targetOrigin s0 ->
  Forall (fun p => p = handshake s0) (sent s) ->
  Forall (fun p => p = handshake s0) (sent (run h s inputs)).
Proof.
  revert s. induction inputs as [|i inputs IH]; intros s A B C F; [exact F|].
  unfold run. simpl. destruct (step_static h s i) as (A' & B' & C').
  apply IH; try congruence.
  destruct (sent_step s i) as [E|E]; rewrite E; [exact F|].
  apply Forall_app. split; [exact F|].
  constructor; [|constructor]. apply handshake_static; assumption.
Qed.

(** Whatever timers fire and whatever messages arrive, everything a call of
    [RPC.Client] sends is the handshake request
    [{command: 'getRpcInterface', interfaceName, id: 0}], posted to the
    target window with the target origin of the call. *)
Theorem connector_sends_only_handshakes (w : window) (name : string)
    (origin : option string) (more : list value) (inputs : list input) :
  Forall (fun p => p = handshake (Client w name origin more)
                   /\ to p = w
                   /\ prop (message p) "command" = VStr "getRpcInterface"
                   /\ prop (message p) "interfaceName" = VStr name
                   /\ prop (message p) "id" = VNum 0)
         (sent (run h (Client w name origin more) inputs)).
Proof.
  assert (F : Forall (fun p => p = handshake (Client w name origin more))
                (sent (run h (Client w name origin more) inputs))).
  { apply sent_run; try reflexivity. constructor. }
  revert F. apply List.Forall_impl. intros p ->. repeat split.
Qed.

(** Once a reply has been accepted, a step sends nothing, builds nothing,
    sets no timer and leaves a settled promise as it is. *)
Lemma established_step s i :
  connected s = true ->
  listening s = false ->
  connected (step h s i) = true
  /\ listening (step h s i) = false
  /\ sent (step h s i) = sent s
  /\ proxies (step h s i) = proxies s
  /\ (length (timers (step h s i)) <= length (timers s))%nat
  /\ (promise s <> Unsettled -> promise (step h s i) = promise s)
  /\ (timers s = [] -> step h s i = s).
Proof.
  intros C L. destruct i as [id f|ev]; simpl.
  - unfold fire. destruct (find_timer id (timers s)) as [t|] eqn:F;
      [|repeat split; auto].
    assert (NE : timers s <> []).
    { intros E. rewrite E in F. discriminate. }
    destruct (job t); simpl.
    + unfold tryToConnect. simpl. rewrite C. simpl.
      repeat split; auto; try contradiction.
      destruct (timeoutTimer s); simpl;
        [etransitivity; [apply length_filter|]|]; apply length_filter.
    + repeat split; auto; try contradiction.
      * destruct (connectTimer s); simpl;
          [etransitivity; [apply length_filter|]|]; apply length_filter.
      * intros N. unfold settle. destruct (promise s); congruence.
  - rewrite L. repeat split; auto.
Qed.

Lemma established_run (inputs : list input) s :
  connected s = true ->
  listening s = false ->
  sent (run h s inputs) = sent s
  /\ proxies (run h s inputs) = proxies s
  /\ (length (timers (run h s inputs)) <= length (timers s))%nat
  /\ (promise s <> Unsettled -> promise (run h s inputs) = promise s)
  /\ (timers s = [] -> run h s inputs = s).
Proof.
  revert s. induction inputs as [|i inputs IH]; intros s C L;
    [repeat split; auto|].
  unfold run. simpl.
  destruct (established_step s i C L) as (C' & L' & Se & Pr & Ti & Po & Em).
  destruct (IH _ C' L') as (Se' & Pr' & Ti' & Po' & Em').
  unfold run in *. repeat split.
  - congruence.
  - congruence.
  - lia.
  - intros N. rewrite Po'; [apply Po; exact N|]. rewrite (Po N). exact N.
  - intros E. rewrite Em' by (rewrite (Em E); exact E). exact (Em E).
Qed.

(** What the listener does with a reply it accepts. *)
Lemma listener_accepts s ev :
  listening s = true ->
  discards s ev = Some false ->
  let built := Client._Client (targetWindow s) (targetOrigin s) (interfaceName s)
                 (prop (data ev) "result") in
  let s' := step h s (Message ev) in
  connected s' = true /\ listening s' = false
  /\ timers s' = timers s /\ sent s' = sent s
  /\ connectTimer s' = connectTimer s /\ timeoutTimer s' = timeoutTimer s
  /\ promise s' = match built with
                  | Some c => settle (promise s) (Resolved c)
                  | None => promise s
                  end
  /\ proxies s' = match built with
                  | Some c => proxies s ++ [c]
                  | None => proxies s
                  end.
Proof.
  intros L D built s'. unfold s'. simpl. rewrite L.
  unfold interfaceListener. rewrite D.
  assert (G : get (data ev) "result" = Some (prop (data ev) "result")).
  { unfold discards in D.
    destruct (negb (Nat.eqb (source ev) (targetWindow s))); [discriminate|].
    destruct (get (data ev) "status") eqn:E; [|discriminate].
    apply (get_some_any _ _ _ _ E). }
  rewrite G. fold built. simpl. repeat split; reflexivity.
Qed.

(** Once a handshake reply with a list of names is accepted, the promise of
    [RPC.Client] is resolved with the proxy built from it and stays so; no
    request is sent any more, no further proxy is built and no timer is
    set, whatever fires or arrives afterwards. *)
Theorem connected_stops_retrying s ev (c : Client.Client) :
  listening s = true ->
  promise s = Unsettled ->
  discards s ev = Some false ->
  Client._Client (targetWindow s) (targetOrigin s) (interfaceName s)
    (prop (data ev) "result") = Some c ->
  let s' := step h s (Message ev) in
  promise s' = Resolved c
  /\ proxies s' = proxies s ++ [c]
  /\ forall later : list input,
       promise (run h s' later) = Resolved c
       /\ sent (run h s' later) = sent s
       /\ proxies (run h s' later) = proxies s ++ [c]
       /\ (length (timers (run h s' later)) <= length (timers s))%nat.
Proof.
  intros L P D B s'.
  destruct (listener_accepts s ev L D) as (C' & L' & T' & S' & _ & _ & P' & X').
  fold s' in C', L', T', S', P', X'. rewrite B in P', X'. rewrite P in P'.
  simpl in P'. split; [exact P'|]. split; [exact X'|].
  intros later.
  destruct (established_run later s' C' L') as (Se & Pr & Ti & Po & _).
  repeat split.
  - rewrite Po; [exact P'|]. rewrite P'. discriminate.
  - congruence.
  - congruence.
  - rewrite <- T'. exact Ti.
Qed.

Lemma filter_ids (a b : nat) (ts : list timer) :
  (forall t, In t ts -> timer_id t = a \/ timer_id t = b) ->
  filter (fun t => timer_id t ≠ a) (filter (fun t => timer_id t ≠ b) ts) = [].
Proof.
  induction ts as [|t ts IH]; intros A; [reflexivity|].
  assert (A' : forall t, In t ts -> timer_id t = a \/ timer_id t = b)
    by (intros u Hu; apply A; right; exact Hu).
  rewrite filter_cons.
  destruct (decide (timer_id t ≠ b)) as [D|D]; [|apply IH; exact A'].
  rewrite filter_cons.
  destruct (decide (timer_id t ≠ a)) as [E|E]; [|apply IH; exact A'].
  destruct (A t (or_introl eq_refl)); contradiction.
Qed.

Lemma find_timer_none (id : nat) (ts : list timer) :
  (forall t, In t ts -> timer_id t <> id) -> find_timer id ts = None.
Proof.
  unfold find_timer. induction ts as [|t ts IH]; intros A; [reflexivity|]. simpl.
  destruct (Nat.eqb (timer_id t) id) eqn:E.
  - apply Nat.eqb_eq in E. destruct (A t (or_introl eq_refl) E).
  - apply IH. intros u Hu. apply A. right. exact Hu.
Qed.

Lemma find_timer_app_none (id : nat) (ts us : list timer) :
  find_timer id ts = None -> find_timer id (ts ++ us) = find_timer id us.
Proof.
  unfold find_timer. induction ts as [|t ts IH]; simpl; [reflexivity|].
  destruct (Nat.eqb (timer_id t) id); [discriminate|exact IH].
Qed.

(** A timer that fires touches neither the listener nor the proxies. *)
Lemma fire_keeps s (id : nat) (f : option value) :
  listening (fire h id f s) = listening s
  /\ proxies (fire h id f s) = proxies s
  /\ connected (fire h id f s) = connected s.
Proof.
  unfold fire. destruct (find_timer id (timers s)) as [t|]; [|auto].
  destruct (job t); simpl; [|auto].
  unfold tryToConnect. simpl. destruct (connected s); simpl; auto.
Qed.

Lemma start_retrying (w : window) (name : string) (origin : option string)
    (more : list value) :
  Handshake.retrying (Client w name origin more).
Proof.
  split; [apply start_awaiting|].
  exists 1%nat, {| timer_id := 1%nat; due := 100; job := TryToConnect |}.
  split; reflexivity.
Qed.

(** Until a reply is accepted or the timeout fires, a retry is pending. *)
Lemma retrying_step s i :
  Handshake.retrying s -> unanswered s i = true ->
  Handshake.retrying (step h s i) \/ timed_out h (step h s i).
Proof.
  intros [A (j & t & J & F)] U. destruct i as [id f|ev].
  - destruct (Nat.eq_dec id 0%nat) as [->|N].
    + right. apply timeout_fires. exact A.
    + left. split; [apply retry_fires; assumption|].
      pose proof A as (C & P & L & T & F0 & j' & J' & B & All).
      assert (j' = j) by congruence. subst j'.
      simpl. unfold fire.
      destruct (find_timer id (timers s)) as [u|] eqn:Fu;
        [|exists j, t; auto].
      apply find_timer_spec in Fu. destruct Fu as [Iu Eu].
      destruct (All u Iu) as [E|[E Ju]]; [congruence|].
      rewrite Ju. unfold tryToConnect. simpl. rewrite C. simpl.
      exists (next_timer s),
        {| timer_id := next_timer s; due := Z.max (clock s) (due u) + 1000;
           job := TryToConnect |}.
      split; [reflexivity|].
      rewrite find_timer_app_none.
      * unfold find_timer. simpl. rewrite Nat.eqb_refl. reflexivity.
      * apply find_timer_none. intros v Hv.
        apply list_elem_of_In, list_elem_of_filter in Hv. destruct Hv as [_ Iv].
        apply list_elem_of_In in Iv.
        destruct (All v Iv) as [E0|[Ej _]]; lia.
  - left. simpl. destruct A as (C & P & L & R). rewrite L.
    rewrite listener_discards.
    + split; [repeat split; try assumption; apply R|]. exists j, t. auto.
    + simpl in U. destruct (discards s ev) as [[|]|]; congruence.
Qed.

Lemma retrying_run (inputs : list input) s s0 :
  targetWindow s = targetWindow s0 ->
  interfaceName s = interfaceName s0 ->
  targetOrigin s = targetOrigin s0 ->
  Forall (fun i => unanswered s0 i = true) inputs ->
  Handshake.retrying s \/ timed_out h s ->
  Handshake.retrying (run h s inputs) \/ timed_out h (run h s inputs).
Proof.
  revert s. induction inputs as [|i inputs IH]; intros s A B C U Inv; [exact Inv|].
  apply Forall_cons in U. destruct U as [Ui U].
  unfold run. simpl.
  destruct (step_static h s i) as (A' & B' & C').
  apply IH; try congruence; try assumption.
  destruct Inv as [Inv|T].
  - apply retrying_step; [exact Inv|].
    rewrite (unanswered_static s0 s i); auto.
  - right. apply (timed_out_step h s i T).
Qed.

(** A handshake reply whose result cannot be iterated (line 129 throws) is
    accepted all the same: the listener is gone and [connected] is set, so
    the next retry cancels the timeout and stops.  From then on no timer is
    pending, nothing changes any more, and the promise of [RPC.Client] is
    neither resolved nor rejected. *)
Theorem malformed_handshake_hangs (w : window) (name : string)
    (origin : option string) (more : list value) (before : list input)
    ev (failure : option value) :
  Forall (fun i => unanswered (Client w name origin more) i = true) before ->
  let s := run h (Client w name origin more) before in
  promise s = Unsettled ->
  discards s ev = Some false ->
  Client._Client (targetWindow s) (targetOrigin s) (interfaceName s)
    (prop (data ev) "result") = None ->
  exists j : nat,
    connectTimer s = Some j
    /\ let s' := run h s [Message ev; Fire j failure] in
       promise s' = Unsettled
       /\ timers s' = []
       /\ sent s' = sent s
       /\ forall later : list input, run h s' later = s'.
Proof.
  intros U s P D B.
  assert (Inv : Handshake.retrying s \/ timed_out h s).
  { apply (retrying_run before (Client w name origin more)
             (Client w name origin more)); auto.
    left. apply start_retrying. }
  destruct Inv as [[A (j & t & J & F)]|[X _]]; [|congruence].
  exists j. split; [exact J|].
  pose proof A as (C & _ & L & T & F0 & j' & J' & Bd & All).
  assert (j' = j) by congruence. subst j'.
  destruct (listener_accepts s ev L D) as (C1 & L1 & T1 & S1 & J1 & To1 & P1 & _).
  rewrite B in P1.
  set (s1 := step h s (Message ev)) in *.
  assert (Jt : job t = TryToConnect /\ timer_id t = j).
  { apply find_timer_spec in F. destruct F as [It Et].
    destruct (All t It) as [E|[_ Jt]]; [lia|auto]. }
  assert (E2 : let s2 := step h s1 (Fire j failure) in
               promise s2 = Unsettled /\ timers s2 = [] /\ sent s2 = sent s
               /\ connected s2 = true /\ listening s2 = false).
  { simpl. unfold fire. rewrite T1, F. destruct Jt as [Jt _]. rewrite Jt.
    unfold tryToConnect. simpl. rewrite C1. simpl.
    rewrite To1, T, P1, P, S1, L1. repeat split.
    apply filter_ids. intros u Hu. destruct (All u Hu) as [E|[E _]]; auto. }
  simpl. fold s1. destruct E2 as (P2 & T2 & S2 & C2 & L2).
  repeat split; try assumption.
  intros later. apply (established_run later _ C2 L2). exact T2.
Qed.

Lemma silent_step s i :
  Handshake.silent s -> unanswered s i = true -> Handshake.silent (step h s i).
Proof.
  intros [L X] U. destruct i as [id f|ev]; simpl.
  - destruct (fire_keeps s id f) as (L' & X' & _). split; congruence.
  - rewrite L. rewrite listener_discards; [split; assumption|].
    simpl in U. destruct (discards s ev) as [[|]|]; congruence.
Qed.

Lemma silent_run (inputs : list input) s s0 :
  targetWindow s = targetWindow s0 ->
  interfaceName s = interfaceName s0 ->
  targetOrigin s = targetOrigin s0 ->
  Forall (fun i => unanswered s0 i = true) inputs ->
  Handshake.silent s -> Handshake.silent (run h s inputs).
Proof.
  revert s. induction inputs as [|i inputs IH]; intros s A B C U Inv; [exact Inv|].
  apply Forall_cons in U. destruct U as [Ui U].
  unfold run. simpl.
  destruct (step_static h s i) as (A' & B' & C').
  apply IH; try congruence; try assumption.
  apply silent_step; [exact Inv|].
  rewrite (unanswered_static s0 s i); auto.
Qed.

(** The timeout callback does not remove the listener: a handshake reply
    that arrives after the timeout is accepted and a proxy is built from
    it, although the promise of [RPC.Client] has been rejected and stays
    rejected; nobody holds the proxy. *)
Theorem late_reply_builds_unreachable_proxy (w : window) (name : string)
    (origin : option string) (more : list value) (before : list input)
    ev (c : Client.Client) :
  Forall (fun i => unanswered (Client w name origin more) i = true) before ->
  let s := step h (run h (Client w name origin more) before) (Fire 0%nat None) in
  discards s ev = Some false ->
  Client._Client (targetWindow s) (targetOrigin s) (interfaceName s)
    (prop (data ev) "result") = Some c ->
  let s' := step h s (Message ev) in
  promise s' = Failed (timeout_error h)
  /\ proxies s' = [c]
  /\ forall later : list input,
       promise (run h s' later) = Failed (timeout_error h)
       /\ proxies (run h s' later) = [c]
       /\ sent (run h s' later) = sent s.
Proof.
  intros U s D B s'.
  set (s0 := run h (Client w name origin more) before) in *.
  assert (Inv : awaiting s0 \/ timed_out h s0).
  { apply (awaiting_run h before (Client w name origin more)
             (Client w name origin more)); auto.
    left. apply start_awaiting. }
  assert (T : timed_out h s).
  { destruct Inv as [A|T].
    - apply timeout_fires. exact A.
    - apply (timed_out_step h s0 (Fire 0%nat None) T). }
  assert (Si : Handshake.silent s).
  { assert (Si0 : Handshake.silent s0).
    { apply (silent_run before (Client w name origin more)
               (Client w name origin more)); auto. split; reflexivity. }
    destruct Si0 as [L X]. unfold s. simpl.
    destruct (fire_keeps s0 0%nat None) as (L' & X' & _). split; congruence. }
  destruct Si as [L X]. destruct T as [P _].
  destruct (listener_accepts s ev L D) as (C1 & L1 & _ & S1 & _ & _ & P1 & X1).
  fold s' in C1, L1, S1, P1, X1. rewrite B in P1, X1.
  rewrite P in P1. rewrite X in X1. simpl in P1, X1.
  split; [exact P1|]. split; [exact X1|]. intros later.
  destruct (established_run later s' C1 L1) as (Se & Pr & _ & Po & _).
  repeat split.
  - rewrite Po; [exact P1|]. rewrite P1. discriminate.
  - congruence.
  - congruence.
Qed.

(** A call of [RPC.Client] builds at most one proxy, whatever arrives: the
    listener removes itself before it builds one (line 21). *)
Theorem at_most_one_proxy (w : window) (name : string) (origin : option string)
    (more : list value) (inputs : list input) :
  (length (proxies (run h (Client w name origin more) inputs)) <= 1)%nat
  /\ (listening (run h (Client w name origin more) inputs) = true ->
      proxies (run h (Client w name origin more) inputs) = []).
Proof.
  assert (G : forall s,
             (listening s = true -> proxies s = []) ->
             (length (proxies s) <= 1)%nat ->
             (listening (run h s inputs) = true -> proxies (run h s inputs) = [])
             /\ (length (proxies (run h s inputs)) <= 1)%nat).
  { induction inputs as [|i inputs IH]; intros s A B; [auto|].
    unfold run. simpl. apply IH.
    - destruct i as [id f|ev]; simpl.
      + destruct (fire_keeps s id f) as (L' & X' & _). rewrite L', X'. exact A.
      + destruct (listening s) eqn:L; [|intros H; congruence].
        unfold interfaceListener.
        destruct (discards s ev) as [[|]|]; simpl; auto. discriminate.
    - destruct i as [id f|ev]; simpl.
      + destruct (fire_keeps s id f) as (_ & X' & _). rewrite X'. exact B.
      + destruct (listening s) eqn:L; [|exact B].
        unfold interfaceListener.
        destruct (discards s ev) as [[|]|]; simpl; auto.
        rewrite (A eq_refl).
        destruct (match get (data ev) "result" with
                  | Some result => Client._Client (targetWindow s) (targetOrigin s)
                                     (interfaceName s) result
                  | None => None
                  end); simpl; lia. }
  destruct (G (Client w name origin more)) as [A B]; [reflexivity|simpl; lia|].
  split; assumption.
Qed.


End ConnectorMore.

(** * Further properties of the dispatcher *)

Section DispatcherMore.

Variable h : Host.
Variable S : Type.

Implicit Types (srv : Server.Server S) (st : Server.instance S) (ev : event).

(** What [_replyTo] posts, when it posts. *)
Lemma replyTo_post srv ev (status : string) (result : value) (p : post) :
  Server._replyTo h srv ev status result = inr p ->
  exists result' id,
    structured_clone h result = Some result'
    /\ structured_clone h (prop (data ev) "id") = Some id
    /\ p = {| to := source ev;
              message := VObj [("status", VStr status); ("result", result');
                               ("interfaceName", VStr (Server._name srv));
                               ("id", id)];
              target_origin := origin ev |}.
Proof.
  unfold Server._replyTo, postMessage, prop.
  destruct (get (data ev) "id") as [id0|]; [|discriminate]. simpl.
  destruct (structured_clone h result) as [result'|]; [|discriminate].
  destruct (structured_clone h id0) as [id|]; [|discriminate]. simpl.
  intros E. injection E as <-. exists result', id. auto.
Qed.

(** What [_replyTo] posts for a result and an id that can be cloned. *)
Lemma replyTo_sends srv ev (status : string) (result result' id : value) :
  nullish (data ev) = false ->
  structured_clone h result = Some result' ->
  structured_clone h (prop (data ev) "id") = Some id ->
  Server._replyTo h srv ev status result
  = inr {| to := source ev;
           message := VObj [("status", VStr status); ("result", result');
                            ("interfaceName", VStr (Server._name srv));
                            ("id", id)];
           target_origin := origin ev |}.
Proof.
  intros N R I. unfold Server._replyTo, postMessage.
  assert (G : get (data ev) "id" = Some (prop (data ev) "id")).
  { unfold prop. destruct (get (data ev) "id") eqn:E; [reflexivity|].
    apply get_nullish in E. congruence. }
  rewrite G. simpl. rewrite R, I. reflexivity.
Qed.

Lemma reply_error_shape srv (deferred : bool) ev (e : value) :
  Forall (Handshake.effect_answers_to h (Server._name srv) ev)
    (Server.reply_error h srv deferred ev e)
  /\ length (Server.reply_error h srv deferred ev e) = 1%nat.
Proof.
  unfold Server.reply_error.
  destruct (Server.error_payload e) as [payload|];
    [|split; [constructor; [exact I|constructor]|reflexivity]].
  destruct (Server._replyTo h srv ev "error" payload) as [e'|p] eqn:R;
    (split; [|reflexivity]); (constructor; [|constructor]); simpl; [exact I|].
  apply replyTo_post in R. destruct R as (r' & id & _ & I & ->).
  repeat split. exists "error", r', id. auto.
Qed.

Lemma reply_ok_shape srv (deferred : bool) ev (v : value) :
  Forall (Handshake.effect_answers_to h (Server._name srv) ev)
    (Server.reply_ok h srv deferred ev v)
  /\ length (Server.reply_ok h srv deferred ev v) = 1%nat.
Proof.
  unfold Server.reply_ok.
  destruct (Server._replyTo h srv ev "OK" v) as [e'|p] eqn:R;
    [apply reply_error_shape|].
  split; [|reflexivity]. constructor; [|constructor]. simpl.
  apply replyTo_post in R. destruct R as (r' & id & _ & I & ->).
  repeat split. exists "OK", r', id. auto.
Qed.

(** A message gets at most one reply, and the reply goes back to where the
    message came from: it is posted to [message.source] with
    [message.origin] as target origin and carries the status 'OK' or
    'error', the name of the dispatcher and the id of the message. *)
Theorem every_reply_goes_back srv st ev :
  Forall (Handshake.effect_answers_to h (Server._name srv) ev)
    (snd (Server._receive h srv st ev))
  /\ (length (snd (Server._receive h srv st ev)) <= 1)%nat.
Proof.
  assert (E : forall l, Forall (Handshake.effect_answers_to h (Server._name srv) ev) l
                        /\ length l = 1%nat ->
                        Forall (Handshake.effect_answers_to h (Server._name srv) ev) l
                        /\ (length l <= 1)%nat).
  { intros l [F L]. split; [exact F|lia]. }
  unfold Server._receive, Server.try_body.
  destruct (get (data ev) "interfaceName") as [name|];
    [|apply E, reply_error_shape].
  destruct (negb (is_str name (Server._name srv))); [split; [constructor|simpl; lia]|].
  destruct (negb (Server.includes _ _)); [apply E, reply_error_shape|].
  destruct (Server.call_args h srv ev _) as [args|]; [|apply E, reply_error_shape].
  destruct (to_string _) as [key|]; [|apply E, reply_error_shape].
  destruct (Server.lookup_member srv key) as [m|]; [|apply E, reply_error_shape].
  destruct (m (Server.service st) args) as [s' [v|e|[v|e|]]]; simpl.
  - apply E, reply_ok_shape.
  - apply E, reply_error_shape.
  - apply E, reply_ok_shape.
  - apply E, reply_error_shape.
  - split; [constructor|simpl; lia].
Qed.


Lemma plain_names (names : list string) : plain (VArr (map VStr names)) = true.
Proof. simpl. induction names as [|n names IH]; simpl; auto. Qed.

Lemma cloneable_not_nullish ev (name : value) :
  get (data ev) "interfaceName" = Some name -> nullish (data ev) = false.
Proof.
  intros G. destruct (nullish (data ev)) eqn:N; [|reflexivity].
  apply (get_nullish _ "interfaceName") in N. congruence.
Qed.

Lemma addressed_not_nullish srv ev :
  Server.addressed srv ev = true -> nullish (data ev) = false.
Proof.
  unfold Server.addressed.
  destruct (get (data ev) "interfaceName") as [name|] eqn:G; [|discriminate].
  intros _. apply (cloneable_not_nullish ev name G).
Qed.

Lemma handshake_listed (c : Server.clazz S) (useAccessControl : bool)
    (rpcInterface : option (list string)) :
  In "getRpcInterface"
    (Server._rpcInterface (Server._Server c useAccessControl rpcInterface)).
Proof.
  unfold Server._Server. simpl. unfold Server.push at 1.
  apply in_or_app. right. left. reflexivity.
Qed.

(** The answer to a handshake request. *)
Lemma receive_handshake (c : Server.clazz S) (useAccessControl : bool)
    (rpcInterface : option (list string)) st ev (args : list value) :
  let srv := Server._Server c useAccessControl rpcInterface in
  Server.addressed srv ev = true ->
  prop (data ev) "command" = VStr "getRpcInterface" ->
  Server.apply_args h (Server.message_args ev) = Some args ->
  cloneable h (data ev) = true ->
  Handshake.hook_returns c (Server.service st) = true ->
  exists id,
    structured_clone h (prop (data ev) "id") = Some id
    /\ Server._receive h srv st ev
       = ({| Server.service := Handshake.after_hook c (Server.service st);
             Server.calls := Server.calls st ++ [("getRpcInterface", args)] |},
          [Server.Posted false
             {| to := source ev;
                message :=
                  VObj [("status", VStr "OK");
                        ("result", VArr (map VStr (Server._rpcInterface srv)));
                        ("interfaceName", VStr (Server._name srv));
                        ("id", id)];
                target_origin := origin ev |}]).
Proof.
  intros srv A Ek Ar Cl Hk.
  destruct (clone_id_of_data h _ Cl) as [id Hid]. exists id. split; [exact Hid|].
  assert (Ik : In "getRpcInterface" (Server._rpcInterface srv))
    by apply handshake_listed.
  assert (Ca : Server.call_args h srv ev (VStr "getRpcInterface") = Some args).
  { unfold Server.call_args. simpl. rewrite andb_false_r. exact Ar. }
  rewrite (receive_whitelisted h S srv st ev "getRpcInterface" args
             (Server.getRpcInterface srv) A Ek Ik Ca eq_refl).
  unfold Server.getRpcInterface, Handshake.after_hook, Handshake.hook_returns in *.
  change (Server.onConnected (Server.base srv)) with (Server.onConnected c).
  destruct (Server.onConnected c) as [hook|]; simpl in *.
  - destruct (hook (Server.service st)) as [s' [e|]]; simpl in *; [discriminate|].
    unfold Server.reply_ok.
    rewrite (replyTo_sends srv ev "OK" _ _ id (addressed_not_nullish srv ev A)
               (clone_plain h _ (plain_names _)) Hid).
    reflexivity.
  - unfold Server.reply_ok.
    rewrite (replyTo_sends srv ev "OK" _ _ id (addressed_not_nullish srv ev A)
               (clone_plain h _ (plain_names _)) Hid).
    reflexivity.
Qed.

(** The handshake method is on the whitelist of every dispatcher class,
    whatever whitelist was given, and is applied to the arguments of the
    message without the identity object, also under access control: a
    handshake request runs the [onConnected] hook, if there is one, and is
    answered with status 'OK' and the whitelist. *)
Theorem handshake_always_answered (c : Server.clazz S) (useAccessControl : bool)
    (rpcInterface : option (list string)) st ev (args : list value) :
  let srv := Server._Server c useAccessControl rpcInterface in
  Server.addressed srv ev = true ->
  prop (data ev) "command" = VStr "getRpcInterface" ->
  Server.apply_args h (Server.message_args ev) = Some args ->
  cloneable h (data ev) = true ->
  Handshake.hook_returns c (Server.service st) = true ->
  In "getRpcInterface" (Server._rpcInterface srv)
  /\ exists id,
       structured_clone h (prop (data ev) "id") = Some id
       /\ Server._receive h srv st ev
          = ({| Server.service := Handshake.after_hook c (Server.service st);
                Server.calls := Server.calls st ++ [("getRpcInterface", args)] |},
             [Server.Posted false
                {| to := source ev;
                   message :=
                     VObj [("status", VStr "OK");
                           ("result", VArr (map VStr (Server._rpcInterface srv)));
                           ("interfaceName", VStr (Server._name srv));
                           ("id", id)];
                   target_origin := origin ev |}]).
Proof.
  intros srv A Ek Ar Cl Hk. split; [apply handshake_listed|].
  apply receive_handshake; assumption.
Qed.

(** A message for this dispatcher whose command is not a string is answered
    with the 'Unknown command' error. *)
Lemma receive_non_command srv st ev :
  Server.addressed srv ev = true ->
  (forall key, prop (data ev) "command" <> VStr key) ->
  plain (prop (data ev) "id") = true ->
  Server._receive h srv st ev
  = (st, [Server.Posted false
            (Server.unknown_command_reply h srv ev (prop (data ev) "id"))]).
Proof.
  intros A Nc Pl.
  destruct (addressed_get S srv ev "id" A) as (Gid & Gn & Hn).
  assert (W : Server.includes (Server._rpcInterface srv) (prop (data ev) "command")
              = false).
  { apply not_true_is_false. intros W. apply includes_string in W.
    destruct W as [key [E _]]. exact (Nc key E). }
  unfold Server._receive, Server.try_body. rewrite Gn, Hn, W. simpl.
  unfold Server.reply_error, Server.unknown_command. simpl.
  rewrite (replyTo_sends srv ev "error"
             (VObj [("message", VStr "Unknown command");
                    ("stack", VStr (new_stack h "Unknown command"));
                    ("code", VUndef)])
             (VObj [("message", VStr "Unknown command");
                    ("stack", VStr (new_stack h "Unknown command"));
                    ("code", VUndef)])
             (prop (data ev) "id") (addressed_not_nullish srv ev A)
             eq_refl (clone_plain h _ Pl)).
  reflexivity.
Qed.

(** The dispatcher does not tell replies from requests: a message that
    names its interface and has no command, as every reply has none, is
    answered with the 'Unknown command' error; and that answer is again
    such a message for every dispatcher of the same name, which answers it
    in turn. *)
Theorem replies_are_answered srv st ev :
  Server.addressed srv ev = true ->
  (forall key, prop (data ev) "command" <> VStr key) ->
  plain (prop (data ev) "id") = true ->
  let p := Server.unknown_command_reply h srv ev (prop (data ev) "id") in
  Server._receive h srv st ev = (st, [Server.Posted false p])
  /\ forall (srv' : Server.Server S) (st' : Server.instance S)
       (sender : window) (sender_origin : string),
       Server._name srv' = Server._name srv ->
       let ev' := {| source := sender; origin := sender_origin;
                     data := message p |} in
       Server._receive h srv' st' ev'
       = (st', [Server.Posted false
                  (Server.unknown_command_reply h srv' ev' (prop (data ev) "id"))]).
Proof.
  intros A Nc Pl p. split; [apply receive_non_command; assumption|].
  intros srv' st' sender sender_origin En ev'.
  apply (receive_non_command srv' st' ev').
  - unfold Server.addressed. simpl. rewrite En. apply String.eqb_refl.
  - intros key. simpl. discriminate.
  - exact Pl.
Qed.

(** Without access control a method is applied to the arguments of the
    message and nothing else; each application of a whitelisted command is
    made with these arguments. *)
Theorem without_access_control_args_pass srv st ev :
  Server.useAccessControl srv = false ->
  (Server.calls (fst (Server._receive h srv st ev)) = Server.calls st
   \/ exists key args,
        Server.calls (fst (Server._receive h srv st ev))
          = Server.calls st ++ [(key, args)]
        /\ prop (data ev) "command" = VStr key
        /\ Server.apply_args h (Server.message_args ev) = Some args)
  /\ (forall key args m,
        Server.addressed srv ev = true ->
        prop (data ev) "command" = VStr key ->
        In key (Server._rpcInterface srv) ->
        Server.lookup_member srv key = Some m ->
        Server.apply_args h (Server.message_args ev) = Some args ->
        Server.calls (fst (Server._receive h srv st ev))
          = Server.calls st ++ [(key, args)]).
Proof.
  intros AC. split.
  - destruct (receive_calls h S srv st ev) as [E|(key & args & A & Ek & Ik & C & E)];
      [left; exact E|right].
    unfold Server.call_args in C. rewrite AC in C. simpl in C.
    exists key, args. auto.
  - intros key args m A Ek Ik L Ha.
    apply (receive_applies h S srv st ev key args m A Ek Ik); [|exact L].
    unfold Server.call_args. rewrite AC. simpl. exact Ha.
Qed.



End DispatcherMore.

(** * Further properties of the proxy *)

Section ProxyMore.

Variable h : Host.

Implicit Types (c : Client.Client) (ev : event) (ps : list Client.promise).

Lemma settle_keeps ps (p q : nat) (s s' : Client.promise) :
  ps !! p = Some s -> s <> Client.Pending ->
  Client.settle ps q s' !! p = Some s.
Proof.
  intros P N. unfold Client.settle.
  destruct (ps !! q) as [[| |]|] eqn:Q; try exact P.
  rewrite list_lookup_insert_ne; [exact P|]. intros ->. congruence.
Qed.

Lemma settled_step c (a : Client.action) (p : nat) (s : Client.promise) :
  Client.promises c !! p = Some s -> s <> Client.Pending ->
  Client.promises (Client.perform h c a) !! p = Some s.
Proof.
  intros P N. destruct a as [command args id|ev]; simpl.
  - unfold Client._invoke. simpl.
    destruct (postMessage h _ _ _); simpl; apply lookup_app_l_Some; exact P.
  - rewrite receive_state.
    destruct (Client.key_of c ev) as [n|]; [|exact P].
    destruct (Client._waiting c !! n) as [q|]; [|exact P]. simpl.
    destruct (Client.verdict ev); [|exact P].
    apply settle_keeps; assumption.
Qed.

Lemma settled_forever (later : list Client.action) c (p : nat)
    (s : Client.promise) :
  Client.promises c !! p = Some s ->
  s <> Client.Pending ->
  Client.promises (foldl (Client.perform h) c later) !! p = Some s.
Proof.
  revert c. induction later as [|a later IH]; intros c P N; [exact P|].
  simpl. apply IH; [|exact N]. apply settled_step; assumption.
Qed.

(** A promise of the proxy is settled once: whatever calls and replies
    follow, also replies that carry its id again, a fulfilled or rejected
    promise keeps its value, and the number of promises never goes down. *)
Theorem settled_promise_is_final c (p : nat) (s : Client.promise)
    (later : list Client.action) :
  Client.promises c !! p = Some s ->
  s <> Client.Pending ->
  Client.promises (foldl (Client.perform h) c later) !! p = Some s
  /\ (length (Client.promises c)
      <= length (Client.promises (foldl (Client.perform h) c later)))%nat.
Proof.
  intros P N. split; [apply settled_forever; assumption|].
  clear P N. revert c. induction later as [|a later IH]; intros c; [reflexivity|].
  simpl. etransitivity; [|apply IH].
  destruct a as [command args id|ev]; simpl.
  - destruct (invoke_state h c command args id) as [_ L]. rewrite L. lia.
  - rewrite receive_length. reflexivity.
Qed.

(** A call under an id that is still outstanding takes the entry over
    (line 120): the earlier call has no entry any more, and whatever calls
    and replies follow, its promise stays as it is. *)
Theorem colliding_id_orphans_earlier_call c (command : value)
    (args : list value) (id : Z) (p : nat) :
  Client.wf c = true ->
  Client._waiting c !! id = Some p ->
  let c' := fst (fst (Client._invoke h c command args id)) in
  Client._waiting c' !! id = Some (length (Client.promises c))
  /\ p <> length (Client.promises c)
  /\ forall later : list Client.action,
       Client.promises (foldl (Client.perform h) c' later) !! p
       = Client.promises c !! p.
Proof.
  intros WF W c'.
  destruct (invoke_state h c command args id) as [Wc Lc]. fold c' in Wc, Lc.
  pose proof (wf_bounded c WF id p W) as B.
  split; [rewrite Wc; apply lookup_insert_eq|]. split; [lia|].
  intros later. rewrite orphan_forever.
  - unfold c', Client._invoke. simpl.
    destruct (postMessage h _ _ _); simpl; apply lookup_app_l; exact B.
  - intros n. rewrite Wc. intros Hn. apply lookup_insert_Some in Hn.
    destruct Hn as [[_ E]|[Ne Hn]]; [lia|].
    apply Ne. apply (wf_one_promise_each c WF id n p W Hn).
  - rewrite Lc. lia.
Qed.

(** A call whose arguments cannot be cloned posts nothing: [postMessage]
    throws in the executor and the promise is rejected with the
    DataCloneError; the entry made before (line 120) stays in the table,
    and the promise stays rejected whatever follows. *)
Theorem failed_send_rejects_and_keeps_entry c (command : value)
    (args : list value) (id : Z) :
  sequence (map (structured_clone h) args) = None ->
  let p := length (Client.promises c) in
  exists c',
    Client._invoke h c command args id = (c', p, [])
    /\ Client._waiting c' = <[id := p]> (Client._waiting c)
    /\ forall later : list Client.action,
         Client.promises (foldl (Client.perform h) c' later) !! p
         = Some (Client.Rejected (data_clone_error h)).
Proof.
  intros F p.
  assert (E : postMessage h (Client._targetWindow c)
                (VObj [("command", command);
                       ("interfaceName", VStr (Client.interfaceName c));
                       ("args", VArr args); ("id", VNum id)]) "*"
              = inl (data_clone_error h)).
  { unfold postMessage. simpl.
    destruct (structured_clone h command); [|reflexivity].
    rewrite F. reflexivity. }
  unfold Client._invoke. simpl. rewrite E.
  eexists. split; [reflexivity|]. split; [reflexivity|].
  intros later. apply settled_forever; [|discriminate].
  simpl. apply list_lookup_middle. reflexivity.
Qed.

Lemma stub_command_names (names : list string) (key : string) :
  Client.stub_command (map (fun name => (name, VStr name)) names) key
  = if existsb (String.eqb key) names then Some (VStr key) else None.
Proof.
  induction names as [|n names IH]; simpl; [reflexivity|].
  rewrite IH. destruct (existsb (String.eqb key) names).
  - rewrite orb_true_r. reflexivity.
  - rewrite orb_false_r. destruct (String.eqb key n) eqn:E; [|reflexivity].
    apply String.eqb_eq in E. subst. reflexivity.
Qed.

Lemma assigned_names (names : list string) :
  sequence (map (fun name => match to_string name with
                             | Some key => Some (key, name)
                             | None => None
                             end) (map VStr names))
  = Some (map (fun name => (name, VStr name)) names).
Proof.
  induction names as [|n names IH]; simpl; [reflexivity|].
  rewrite IH. reflexivity.
Qed.


(** The proxy looks at replies of its target for its interface only: a
    message from another window, a message without a status (as every
    request has none) and a message for another interface change nothing
    and are not logged. *)
Theorem proxy_ignores_other_messages c ev :
  source ev <> Client._targetWindow c
  \/ (nullish (data ev) = false
      /\ (truthy (prop (data ev) "status") = false
          \/ is_str (prop (data ev) "interfaceName") (Client.interfaceName c) = false)) ->
  Client._receive h c ev = (c, []).
Proof.
  intros H. unfold Client._receive.
  assert (D : Client.discards c ev = Some true); [|rewrite D; reflexivity].
  unfold Client.discards. destruct H as [Ns|[Nn H]].
  - apply Nat.eqb_neq in Ns. rewrite Ns. reflexivity.
  - destruct (negb (Nat.eqb (source ev) (Client._targetWindow c))); [reflexivity|].
    assert (G : forall k, get (data ev) k = Some (prop (data ev) k)).
    { intros k. unfold prop. destruct (get (data ev) k) eqn:E; [reflexivity|].
      apply get_nullish in E. congruence. }
    rewrite !G. destruct H as [H|H]; rewrite H; simpl;
      rewrite ?orb_true_r; reflexivity.
Qed.

(** A proxy posts nothing but the requests of its calls, and it posts them
    to its target window with the wildcard as target origin, also when it
    was built for one origin: the request is delivered whatever the origin
    of the document in the target window is.  The handler of replies posts
    nothing. *)
Theorem requests_reach_any_origin c (command : value) (args : list value)
    (id : Z) (e : Client.effect) (origin_of : window -> string) (sender : window) :
  In e (snd (Client._invoke h c command args id)) ->
  (forall ev (p : post), ~ In (Client.Posted p) (snd (Client._receive h c ev)))
  /\ exists p : post,
       e = Client.Posted p
       /\ snd (Client._invoke h c command args id) = [Client.Posted p]
       /\ to p = Client._targetWindow c
       /\ target_origin p = "*"
       /\ deliver origin_of sender p
          = Some {| source := sender; origin := origin_of sender; data := message p |}.
Proof.
  intros I. split.
  - intros ev p. unfold Client._receive.
    destruct (Client.discards c ev) as [[|]|]; simpl; try tauto;
      try (intros [X|[]]; discriminate).
    destruct (get (data ev) "id") as [i|]; [|intros [X|[]]; discriminate].
    destruct (get (data ev) "status") as [status|]; [|intros [X|[]]; discriminate].
    destruct (get (data ev) "result") as [result|]; [|intros [X|[]]; discriminate].
    destruct (Client.waiting_get (Client._waiting c) i) as [[k q]|];
      [|intros [X|[]]; discriminate].
    unfold Client.answer.
    destruct (is_str status "OK"); simpl; [tauto|].
    destruct (is_str status "error"); simpl; [|tauto].
    destruct (get result "message") as [m|]; [|intros [X|[]]; discriminate].
    destruct (get result "stack") as [st|]; [|intros [X|[]]; discriminate].
    destruct (get result "code") as [co|]; [|intros [X|[]]; discriminate].
    destruct (new_error_message m); simpl; [tauto|intros [X|[]]; discriminate].
  - revert I. unfold Client._invoke, postMessage. cbv zeta.
    match goal with
    | |- context [structured_clone h (VObj ?f)] =>
        destruct (structured_clone h (VObj f)) as [d|]
    end; simpl; [|tauto].
    intros [<-|[]]. eexists. split; [reflexivity|]. split; [reflexivity|].
    split; [reflexivity|]. split; [reflexivity|]. reflexivity.
Qed.

End ProxyMore.

(** * Further properties of a proxy and a dispatcher on the channel *)

Section LinkMore.

Variable h : Host.
Variable S : Type.
Variable origin_of : window -> string.
Variable client_window server_window : window.

Implicit Types (c : Client.Client) (srv : Server.Server S)
  (st : Server.instance S) (ev : event).

(** The error reply for a thrown string. *)
Lemma reply_error_string srv (deferred : bool) ev (text : string) (n : Z) :
  get (data ev) "id" = Some (VNum n) ->
  Server.reply_error h srv deferred ev (VStr text)
  = [Server.Posted deferred
       {| to := source ev;
          message := VObj [("status", VStr "error");
                           ("result", VObj [("message", VStr text)]);
                           ("interfaceName", VStr (Server._name srv));
                           ("id", VNum n)];
          target_origin := origin ev |}].
Proof.
  intros G. unfold Server.reply_error.
  change (Server.error_payload (VStr text)) with (Some (VObj [("message", VStr text)])).
  cbv beta iota.
  rewrite (replyTo_clone h S srv ev "error" _ (VObj [("message", VStr text)]) n G);
    reflexivity.
Qed.


(** The whole handshake: a call of [RPC.Client] for the window and the
    class name of a dispatcher, with a target origin that accepts the
    dispatcher's window, is resolved by the answer to its first request
    with a proxy that is connected to the dispatcher and has a stub for each
    name on the whitelist; the [onConnected] hook has run once. *)
Theorem connect_builds_proxy (cl : Server.clazz S) (useAccessControl : bool)
    (rpcInterface : option (list string)) st (origin : option string)
    (more : list value) :
  let srv := Server._Server cl useAccessControl rpcInterface in
  Handshake.reaches origin_of server_window origin = true ->
  Handshake.hook_returns cl (Server.service st) = true ->
  let done := Handshake.connect h origin_of client_window server_window
                server_window (Server.class_name cl) origin more srv st in
  exists c,
    Connector.promise (fst done) = Connector.Resolved c
    /\ Link.connected origin_of server_window c srv = true
    /\ Client.stubs c = map (fun name => (name, VStr name)) (Server._rpcInterface srv)
    /\ Client._waiting c = ∅
    /\ Connector.sent (fst done)
       = [Connector.handshake
            (Connector.Client server_window (Server.class_name cl) origin more)]
    /\ Server.service (snd done) = Handshake.after_hook cl (Server.service st).
Proof.
  intros srv Re Hk done. unfold done, Handshake.connect.
  set (s0 := Connector.Client server_window (Server.class_name cl) origin more).
  set (s1 := Connector.step h s0 (Connector.Fire 1%nat None)).
  assert (Se : Connector.sent s1 = [Connector.handshake s0]) by reflexivity.
  rewrite Se.
  set (ev := {| source := client_window; origin := origin_of client_window;
                data := message (Connector.handshake s0) |}).
  assert (An : Handshake.answers h origin_of client_window server_window srv st
                 (Connector.handshake s0)
               = Server._receive h srv st ev).
  { unfold Handshake.answers. simpl. rewrite Nat.eqb_refl.
    unfold deliver. simpl.
    assert (X : String.eqb (match origin with Some given => given | None => "*" end) "*"
                || String.eqb (match origin with Some given => given | None => "*" end)
                     (origin_of server_window) = true).
    { destruct origin as [given|]; [exact Re|reflexivity]. }
    rewrite X. reflexivity. }
  rewrite An.
  destruct (receive_handshake h S cl useAccessControl rpcInterface st ev [])
    as (id & Hid & Rv).
  - unfold Server.addressed. simpl. apply String.eqb_refl.
  - reflexivity.
  - reflexivity.
  - reflexivity.
  - exact Hk.
  - fold srv in Rv. rewrite Rv. simpl in Hid. injection Hid as <-.
    simpl. rewrite Nat.eqb_refl. unfold deliver. simpl.
    rewrite String.eqb_refl, orb_true_r.
    set (wl := Server.push _ "getRpcInterface").
    set (ev2 := {| source := server_window; origin := origin_of server_window;
                   data := _ |}).
    assert (Or : String.eqb (Connector.targetOrigin s1) "*"
                 || String.eqb (origin_of server_window) (Connector.targetOrigin s1)
                 = true).
    { simpl. destruct origin as [given|]; simpl in *; [|reflexivity].
      destruct (String.eqb given "*"); simpl in *; [reflexivity|].
      rewrite String.eqb_sym. exact Re. }
    assert (D : Connector.discards s1 ev2 = Some false).
    { unfold Connector.discards.
      change (source ev2) with server_window.
      change (Connector.targetWindow s1) with server_window.
      rewrite Nat.eqb_refl.
      change (get (data ev2) "status") with (Some (VStr "OK")).
      change (get (data ev2) "interfaceName")
        with (Some (VStr (Server.class_name cl))).
      change (Connector.interfaceName s1) with (Server.class_name cl).
      change (Channel.origin ev2) with (origin_of server_window).
      cbv beta iota. unfold is_str.
      destruct (String.eqb (Connector.targetOrigin s1) "*") eqn:E1.
      - rewrite !String.eqb_refl. reflexivity.
      - rewrite orb_false_l in Or. rewrite Or, !String.eqb_refl. reflexivity. }
    unfold Connector.interfaceListener. rewrite D.
    change (get (data ev2) "result") with (Some (VArr (map VStr wl))).
    assert (B : exists c,
               Client._Client (Connector.targetWindow s1) (Connector.targetOrigin s1)
                 (Connector.interfaceName s1) (VArr (map VStr wl)) = Some c
               /\ Client.stubs c = map (fun name => (name, VStr name)) wl
               /\ Client._waiting c = ∅
               /\ Client._targetWindow c = server_window
               /\ Client.interfaceName c = Server.class_name cl
               /\ Client._targetOrigin c = Connector.targetOrigin s1).
    { unfold Client._Client. cbn [iterate]. rewrite assigned_names.
      eexists. split; [reflexivity|]. repeat split. }
    destruct B as (c & B & Bs & Bw & Bt & Bn & Bo).
    cbv beta iota. rewrite B. cbv beta iota.
    exists c. split; [reflexivity|]. split; [|repeat split; assumption].
    unfold Link.connected. rewrite Bt, Bn, Bo.
    rewrite Nat.eqb_refl.
    change (Server._name srv) with (Server.class_name cl).
    rewrite String.eqb_refl.
    change (Connector.targetOrigin s1)
      with (match origin with Some given => given | None => "*" end).
    destruct origin as [given|]; [exact Re|reflexivity].
Qed.


End LinkMore.

(** * The further properties on concrete inputs *)

Section MoreExamples.

Import Demo Sample.

Lemma connected_stops_retrying_witness :
  Connector.listening asking = true
  /\ Connector.promise asking = Connector.Unsettled
  /\ Connector.discards asking (reply "https://x" "OK" (VArr [VStr "ping"]) 0) = Some false
  /\ Client._Client (Connector.targetWindow asking) (Connector.targetOrigin asking)
       (Connector.interfaceName asking)
       (prop (data (reply "https://x" "OK" (VArr [VStr "ping"]) 0)) "result")
     = Some ping_proxy
  /\ let later := [Connector.Fire 2%nat None;
                   Connector.Message (reply "https://x" "OK" (VArr [VStr "pong"]) 0);
                   Connector.Fire 0%nat None] in
     let s' := Connector.step modern asking
                 (Connector.Message (reply "https://x" "OK" (VArr [VStr "ping"]) 0)) in
     Connector.promise (Connector.run modern s' later) = Connector.Resolved ping_proxy
     /\ Connector.sent (Connector.run modern s' later) = Connector.sent asking.
Proof.
  do 4 (split; [reflexivity|]).
  intros later s'.
  destruct (connected_stops_retrying modern asking
              (reply "https://x" "OK" (VArr [VStr "ping"]) 0) ping_proxy
              eq_refl eq_refl eq_refl eq_refl) as (_ & _ & A).
  destruct (A later) as (P & Se & _ & _). split; [exact P|exact Se].
Defined.

Lemma malformed_handshake_hangs_witness :
  Forall (fun i => Connector.unanswered (Connector.Client 2%nat "Ledger" None []) i = true)
    [Connector.Fire 1%nat None]
  /\ let s := Connector.run modern (Connector.Client 2%nat "Ledger" None [])
               [Connector.Fire 1%nat None] in
     Connector.promise s = Connector.Unsettled
     /\ Connector.discards s (reply "https://x" "OK" VUndef 0) = Some false
     /\ Client._Client (Connector.targetWindow s) (Connector.targetOrigin s)
          (Connector.interfaceName s)
          (prop (data (reply "https://x" "OK" VUndef 0)) "result") = None
     /\ exists j : nat,
          Connector.connectTimer s = Some j
          /\ let s' := Connector.run modern s
                         [Connector.Message (reply "https://x" "OK" VUndef 0);
                          Connector.Fire j None] in
             Connector.promise s' = Connector.Unsettled
             /\ Connector.timers s' = []
             /\ Connector.run modern s' [Connector.Fire 0%nat None] = s'.
Proof.
  assert (U : Forall (fun i => Connector.unanswered
                                 (Connector.Client 2%nat "Ledger" None []) i = true)
                [Connector.Fire 1%nat None]) by (repeat constructor).
  split; [exact U|]. intros s. do 3 (split; [reflexivity|]).
  destruct (malformed_handshake_hangs modern 2%nat "Ledger" None []
              [Connector.Fire 1%nat None] (reply "https://x" "OK" VUndef 0) None
              U eq_refl eq_refl eq_refl) as (j & J & P & T & _ & L).
  exists j. split; [exact J|]. intros s'.
  split; [exact P|]. split; [exact T|]. apply L.
Defined.

Lemma late_reply_builds_unreachable_proxy_witness :
  Forall (fun i => Connector.unanswered (Connector.Client 2%nat "Ledger" None []) i = true)
    [Connector.Fire 1%nat None]
  /\ let s := Connector.step modern
               (Connector.run modern (Connector.Client 2%nat "Ledger" None [])
                  [Connector.Fire 1%nat None])
               (Connector.Fire 0%nat None) in
     let ev := reply "https://x" "OK" (VArr [VStr "ping"]) 0 in
     Connector.discards s ev = Some false
     /\ Client._Client (Connector.targetWindow s) (Connector.targetOrigin s)
          (Connector.interfaceName s) (prop (data ev) "result") = Some ping_proxy
     /\ Connector.promise (Connector.step modern s (Connector.Message ev))
        = Connector.Failed (Connector.timeout_error modern)
     /\ Connector.proxies (Connector.step modern s (Connector.Message ev))
        = [ping_proxy].
Proof.
  assert (U : Forall (fun i => Connector.unanswered
                                 (Connector.Client 2%nat "Ledger" None []) i = true)
                [Connector.Fire 1%nat None]) by (repeat constructor).
  split; [exact U|]. intros s ev. split; [reflexivity|]. split; [reflexivity|].
  destruct (late_reply_builds_unreachable_proxy modern 2%nat "Ledger" None []
              [Connector.Fire 1%nat None] ev ping_proxy U eq_refl eq_refl)
    as (P & X & _).
  split; [exact P|exact X].
Defined.


Lemma handshake_always_answered_witness :
  let ev := {| source := 1%nat; origin := "https://app";
               data := VObj [("command", VStr "getRpcInterface");
                             ("interfaceName", VStr "Vault");
                             ("args", VArr []); ("id", VNum 0)] |} in
  Server.addressed vault ev = true
  /\ prop (data ev) "command" = VStr "getRpcInterface"
  /\ Server.apply_args modern (Server.message_args ev) = Some []
  /\ cloneable modern (data ev) = true
  /\ Handshake.hook_returns Vault 4%nat = true
  /\ Server._receive modern vault {| Server.service := 4%nat; Server.calls := [] |} ev
     = ({| Server.service := 5%nat; Server.calls := [("getRpcInterface", [])] |},
        [Server.Posted false
           {| to := 1%nat;
              message := VObj [("status", VStr "OK");
                               ("result", VArr [VStr "deny"; VStr "getRpcInterface"]);
                               ("interfaceName", VStr "Vault"); ("id", VNum 0)];
              target_origin := "https://app" |}]).
Proof.
  intros ev. do 5 (split; [reflexivity|]).
  destruct (handshake_always_answered modern nat Vault true None
              {| Server.service := 4%nat; Server.calls := [] |} ev []
              eq_refl eq_refl eq_refl eq_refl eq_refl) as (_ & id & I & R).
  injection I as <-. exact R.
Defined.

Lemma replies_are_answered_witness :
  let ev := reply "https://x" "OK" (VStr "pong") 5 in
  Server.addressed dispatcher ev = true
  /\ (forall key, prop (data ev) "command" <> VStr key)
  /\ plain (prop (data ev) "id") = true
  /\ let p := Server.unknown_command_reply modern dispatcher ev (VNum 5) in
     Server._receive modern dispatcher fresh ev = (fresh, [Server.Posted false p])
     /\ let ev' := {| source := 1%nat; origin := "https://app"; data := message p |} in
        Server._receive modern dispatcher fresh ev'
        = (fresh, [Server.Posted false
                     (Server.unknown_command_reply modern dispatcher ev' (VNum 5))]).
Proof.
  intros ev.
  assert (K : forall key, prop (data ev) "command" <> VStr key)
    by (intros key; discriminate).
  split; [reflexivity|]. split; [exact K|]. split; [reflexivity|].
  destruct (replies_are_answered modern nat dispatcher fresh ev eq_refl K eq_refl)
    as [A B].
  intros p. split; [exact A|].
  exact (B dispatcher fresh 1%nat "https://app" eq_refl).
Defined.

Lemma without_access_control_args_pass_witness :
  Server.useAccessControl open_dispatcher = false
  /\ Server.calls (fst (Server._receive modern open_dispatcher fresh
                          (request "whoami" [VStr "x"] 5)))
     = [("whoami", [VStr "x"])].
Proof.
  split; [reflexivity|].
  destruct (without_access_control_args_pass modern nat open_dispatcher fresh
              (request "whoami" [VStr "x"] 5) eq_refl) as [_ A].
  apply (A "whoami" [VStr "x"]
           (fun n args => (S n, Server.Return (List.hd VUndef args))));
    try reflexivity.
  simpl. tauto.
Defined.


Lemma settled_promise_is_final_witness :
  let c := fst (Client._receive modern busy (reply "https://x" "OK" (VStr "a") 11)) in
  Client.promises c !! 0%nat = Some (Client.Fulfilled (VStr "a"))
  /\ Client.Fulfilled (VStr "a") <> Client.Pending
  /\ Client.promises
       (foldl (Client.perform modern) c
          [Client.Receive (reply "https://x" "error" (VStr "b") 11);
           Client.Invoke (VStr "ping") [] 11;
           Client.Receive (reply "https://x" "OK" (VStr "c") 11)]) !! 0%nat
     = Some (Client.Fulfilled (VStr "a")).
Proof.
  intros c.
  assert (N : Client.Fulfilled (VStr "a") <> Client.Pending) by discriminate.
  split; [reflexivity|]. split; [exact N|].
  exact (proj1 (settled_promise_is_final modern c 0%nat (Client.Fulfilled (VStr "a"))
                  [Client.Receive (reply "https://x" "error" (VStr "b") 11);
                   Client.Invoke (VStr "ping") [] 11;
                   Client.Receive (reply "https://x" "OK" (VStr "c") 11)]
                  eq_refl N)).
Defined.

Lemma colliding_id_orphans_earlier_call_witness :
  Client.wf busy = true
  /\ Client._waiting busy !! 11 = Some 0%nat
  /\ let c' := fst (fst (Client._invoke modern busy (VStr "ping") [] 11)) in
     Client._waiting c' !! 11 = Some 2%nat
     /\ Client.promises
          (foldl (Client.perform modern) c'
             [Client.Receive (reply "https://x" "OK" (VStr "pong") 11);
              Client.Receive (reply "https://x" "OK" (VStr "pong") 11)]) !! 0%nat
        = Some Client.Pending.
Proof.
  split; [reflexivity|]. split; [reflexivity|]. intros c'.
  destruct (colliding_id_orphans_earlier_call modern busy (VStr "ping") [] 11 0%nat
              eq_refl eq_refl) as (A & _ & B).
  split; [exact A|]. rewrite B. reflexivity.
Defined.

Lemma failed_send_rejects_and_keeps_entry_witness :
  sequence (map (structured_clone modern) [VWin 1%nat]) = None
  /\ exists c',
       Client._invoke modern proxy (VStr "ping") [VWin 1%nat] 7 = (c', 0%nat, [])
       /\ Client._waiting c' !! 7 = Some 0%nat
       /\ Client.promises
            (foldl (Client.perform modern) c'
               [Client.Receive (reply "https://x" "OK" (VStr "pong") 7)]) !! 0%nat
          = Some (Client.Rejected (data_clone_error modern)).
Proof.
  split; [reflexivity|].
  destruct (failed_send_rejects_and_keeps_entry modern proxy (VStr "ping")
              [VWin 1%nat] 7 eq_refl) as (c' & A & W & B).
  exists c'. split; [exact A|]. split; [|apply B].
  rewrite W. apply lookup_insert_eq.
Defined.

Lemma proxy_ignores_other_messages_witness :
  let ev := {| source := 2%nat; origin := "https://x";
               data := VObj [("command", VStr "ping"); ("interfaceName", VStr "Ledger");
                             ("args", VArr []); ("id", VNum 11)] |} in
  nullish (data ev) = false
  /\ truthy (prop (data ev) "status") = false
  /\ Client._receive modern busy ev = (busy, []).
Proof.
  intros ev. split; [reflexivity|]. split; [reflexivity|].
  apply (proxy_ignores_other_messages modern busy ev).
  right. split; [reflexivity|]. left. reflexivity.
Defined.


Lemma connect_builds_proxy_witness :
  Handshake.reaches origin_of 2%nat (Some "https://x") = true
  /\ Handshake.hook_returns Vault 0%nat = true
  /\ let done := Handshake.connect modern origin_of 1%nat 2%nat 2%nat "Vault"
                   (Some "https://x") [] vault fresh in
     exists c,
       Connector.promise (fst done) = Connector.Resolved c
       /\ Client.stubs c = [("deny", VStr "deny");
                            ("getRpcInterface", VStr "getRpcInterface")]
       /\ Client._waiting c = ∅
       /\ Server.service (snd done) = 1%nat.
Proof.
  split; [reflexivity|]. split; [reflexivity|]. intros done.
  destruct (connect_builds_proxy modern nat origin_of 1%nat 2%nat Vault true None
              fresh (Some "https://x") [] eq_refl eq_refl)
    as (c & P & _ & St & Wa & _ & Se).
  exists c. split; [exact P|]. split; [exact St|]. split; [exact Wa|exact Se].
Defined.

Lemma proxy_close_unsubscribes_witness :
  Page.known blank = true
  /\ Page.listeners (Page.proxy_self (Page.proxy_close (Page.proxy_constructor blank)))
     = [].
Proof.
  split; [reflexivity|]. exact (proxy_close_unsubscribes blank eq_refl).
Defined.


Lemma requests_reach_any_origin_witness :
  let p := {| to := 2%nat;
              message := VObj [("command", VStr "ping");
                               ("interfaceName", VStr "Ledger");
                               ("args", VArr [VStr "secret"]); ("id", VNum 7)];
              target_origin := "*" |} in
  Client._targetOrigin proxy = "https://x"
  /\ In (Client.Posted p)
       (snd (Client._invoke modern proxy (VStr "ping") [VStr "secret"] 7))
  /\ deliver (fun _ => "https://evil") 1%nat p
     = Some {| source := 1%nat; origin := "https://evil"; data := message p |}.
Proof.
  intros p.
  assert (I : In (Client.Posted p)
                (snd (Client._invoke modern proxy (VStr "ping") [VStr "secret"] 7)))
    by (left; reflexivity).
  split; [reflexivity|]. split; [exact I|].
  destruct (requests_reach_any_origin modern proxy (VStr "ping") [VStr "secret"] 7
              (Client.Posted p) (fun _ => "https://evil") 1%nat I)
    as (_ & q & E & _ & _ & _ & D).
  injection E as <-. exact D.
Defined.

End MoreExamples.
